(** * Criteria of the parameter framework: value model, match methods, registry

    Shallow embedding of [core::criterion::Criterion]
    (parameter/criterion/include/criterion/Criterion.h) and of
    [core::criterion::Criteria] (parameter/criterion/src/Criteria.cpp).

    - [std::map<std::string, V>] is a [gmap string V]; a range-for visits
      its elements by increasing key, the order of [iteration];
    - an [int32_t] is a [Z] and a [uint32_t] an [N]; the wrap-around of the
      unsigned counter is written out ([wrap_uint32]), and [&], [|] on
      [int32_t] are [Z.land], [Z.lor] on two's complement integers;
    - a [Criterion*] is an address of the free store ([ptr]), [nullptr] is
      [None]; the objects a registry owns live in that store;
    - a C++ exception is the [Throws] case of [outcome].

    The logger is used for diagnostics only and has no influence on any
    returned value; it is left out of the embedding, and so is the XML
    export. *)

From stdpp Require Import gmap strings list fin_maps sorting.
From Stdlib Require Import ZArith Ascii.

Local Open Scope Z_scope.

(** ** Machine integers *)

Definition wrap_uint32 (n : N) : N := (n mod 2 ^ 32)%N.

(** ** Exceptions *)

Inductive exception : Type :=
  | out_of_range.

Inductive outcome (A : Type) : Type :=
  | Returns (a : A)
  | Throws (e : exception).
Arguments Returns {A} a.
Arguments Throws {A} e.

(** [std::map::at]: the mapped value, or [std::out_of_range]. *)
Definition map_at {V : Type} (m : gmap string V) (k : string) : outcome V :=
  match m !! k with
  | Some v => Returns v
  | None => Throws out_of_range
  end.

(** [std::map::count] on a map with unique keys. *)
Definition map_count {V : Type} (m : gmap string V) (k : string) : nat :=
  match m !! k with
  | Some _ => 1%nat
  | None => 0%nat
  end.

(** ** The order of a [std::map] *)

(** [std::less<std::string>] compares the keys lexicographically, character
    by character as unsigned values, a proper prefix being smaller: this is
    [String.compare]. *)
Definition key_le {V : Type} (x y : string * V) : Prop :=
  String.leb x.1 y.1 = true.

Definition key_lt {V : Type} (x y : string * V) : Prop :=
  String.ltb x.1 y.1 = true.

#[global] Instance key_le_dec {V : Type} (x y : string * V) :
  Decision (key_le x y).
Proof. unfold key_le. apply _. Defined.

(** The elements of a map in the order in which [begin()] to [end()], and so
    a range-for, visits them: by increasing key. *)
Definition iteration {V : Type} (m : gmap string V) : list (string * V) :=
  merge_sort key_le (map_to_list m).

(** ** Strings *)

(** Modelled from the spec: the tokens of [s] between occurrences of the
    delimiter [d], for the literal form of a compound bitmask (the tokenizer
    the framework uses is missing). *)
Fixpoint split_on (d : ascii) (s : string) : list string :=
  match s with
  | EmptyString => [EmptyString]
  | String a s' =>
      if Ascii.eqb a d then EmptyString :: split_on d s'
      else match split_on d s' with
           | [] => [String a EmptyString]
           | tok :: toks => String a tok :: toks
           end
  end.

Module Criterion.

(** A [MatchMethod] is a [std::function<bool (int)>] closed over the
    criterion ([this]); the captured current state is the first argument
    here, the state to match the second. *)
Definition MatchMethod : Type := Z -> Z -> bool.

(** The dynamic type of the object, which selects the virtual methods. *)
Inductive class : Type :=
  | CriterionClass
  | InclusiveCriterionClass.

Record t : Type := mk {
  mValuePairs : gmap string Z;
  mMatchMethods : gmap string MatchMethod;
  mState : Z;
  _uiNbModifications : N;
  mName : string;
  vptr : class
}.

(** Modelled from the spec: the "descriptive error" of a refused
    [addValuePair], which its [error] string carries: the reason and the
    offending value. *)
Inductive errorDetail : Type :=
  | LiteralAlreadyPresent (literalValue : string)
  | NumericalAlreadyPresent (numericalValue : Z).

(** Modelled from the spec: the initializer constructor of Criterion.cpp
    (declared in Criterion.h, the body is missing). The value pairs and the
    match methods are the ones handed over by the concrete kind, the state
    starts at the "unset" default 0 and the modification counter at 0. *)
Definition init (name : string) (derivedValuePairs : gmap string Z)
    (derivedMatchMethods : gmap string MatchMethod) (cls : class) : t :=
  {| mValuePairs := derivedValuePairs;
     mMatchMethods := derivedMatchMethods;
     mState := 0;
     _uiNbModifications := 0%N;
     mName := name;
     vptr := cls |}.

(** Modelled from the spec: the default match methods of the exclusive
    kind, "Is" (state equals the argument) and "Is Not" (state differs). *)
Definition exclusiveMatchMethods : gmap string MatchMethod :=
  <["Is" := fun state arg => state =? arg]>
    (<["Is Not" := fun state arg => negb (state =? arg)]> ∅).

(** Modelled from the spec: the match methods of the inclusive kind,
    "Includes" ((state & arg) == arg) and "Excludes" ((state & arg) == 0),
    which replace the default ones. *)
Definition inclusiveMatchMethods : gmap string MatchMethod :=
  <["Includes" := fun state arg => Z.land state arg =? arg]>
    (<["Excludes" := fun state arg => Z.land state arg =? 0]> ∅).

(** Modelled from the spec: the public constructor of Criterion.cpp, an
    exclusive criterion without value pairs. *)
Definition Criterion (name : string) : t :=
  init name ∅ exclusiveMatchMethods CriterionClass.

(** Modelled from the spec: the constructor of InclusiveCriterion (its
    header and body are missing), a criterion whose state is a bitmask. *)
Definition InclusiveCriterion (name : string) : t :=
  init name ∅ inclusiveMatchMethods InclusiveCriterionClass.

(** Modelled from the spec: [setCriterionState] (Criterion.cpp is missing)
    unconditionally stores the new state and increments the modification
    counter iff the new state differs from the previous one. *)
Definition setCriterionState (iState : Z) (c : t) : t :=
  {| mValuePairs := mValuePairs c;
     mMatchMethods := mMatchMethods c;
     mState := iState;
     _uiNbModifications :=
       if iState =? mState c then _uiNbModifications c
       else wrap_uint32 (_uiNbModifications c + 1)%N;
     mName := mName c;
     vptr := vptr c |}.

Definition getCriterionState (c : t) : Z := mState c.

Definition getCriterionName (c : t) : string := mName c.

(** Modelled from the spec: [isInclusive] is false for the base kind and
    true for the bitmask specialization. *)
Definition isInclusive (c : t) : bool :=
  match vptr c with
  | CriterionClass => false
  | InclusiveCriterionClass => true
  end.

(** Modelled from the spec: [hasBeenModified] is modificationCount > 0. *)
Definition hasBeenModified (c : t) : bool := (0 <? _uiNbModifications c)%N.

(** Modelled from the spec: [resetModifiedStatus] sets the counter to 0. *)
Definition resetModifiedStatus (c : t) : t :=
  {| mValuePairs := mValuePairs c;
     mMatchMethods := mMatchMethods c;
     mState := mState c;
     _uiNbModifications := 0%N;
     mName := mName c;
     vptr := vptr c |}.

(** Modelled from the spec: [getLiteralValue] (Criterion.cpp is missing).
    The table is keyed by the literal, so the label of a code is the first
    entry, in iteration order, that carries the code; no such entry is the
    normal "not found" outcome. *)
Definition getLiteralValue (numericalValue : Z) (c : t) : option string :=
  match list_find (fun p => p.2 = numericalValue) (iteration (mValuePairs c)) with
  | Some (_, (literalValue, _)) => Some literalValue
  | None => None
  end.

(** Modelled from the spec: the "symmetric lookup" of a single literal, which
    is what [getNumericalValue] of the base class does (Criterion.cpp is
    missing). *)
Definition getAtomicNumericalValue (literalValue : string) (c : t) : option Z :=
  mValuePairs c !! literalValue.

(** Modelled from the spec: the fixed separator of the literal form of a
    compound bitmask (InclusiveCriterion is missing). *)
Definition delimiter : ascii := "|"%char.

(** Modelled from the spec: the OR of the codes of the constituent literals
    (InclusiveCriterion is missing); none when one of them is not
    registered. *)
Fixpoint orLiterals (literals : list string) (c : t) : option Z :=
  match literals with
  | [] => Some 0
  | literal :: rest =>
      match getAtomicNumericalValue literal c, orLiterals rest c with
      | Some v, Some acc => Some (Z.lor v acc)
      | _, _ => None
      end
  end.

(** Modelled from the spec: [getNumericalValue] (Criterion.cpp and the
    override of InclusiveCriterion are missing). A symmetric lookup; the
    inclusive kind additionally resolves the literal form of a compound
    bitmask by OR-ing its constituent literals. *)
Definition getNumericalValue (literalValue : string) (c : t) : option Z :=
  match getAtomicNumericalValue literalValue c with
  | Some v => Some v
  | None =>
      match vptr c with
      | CriterionClass => None
      | InclusiveCriterionClass => orLiterals (split_on delimiter literalValue) c
      end
  end.

(** Modelled from the spec: [addValuePair] (Criterion.cpp is missing)
    fails, with the reason, when the literal or the numerical value is
    already in the table, which it then leaves alone; otherwise it inserts
    the pair and succeeds. The result is the returned bool, the error
    written (if any) and the criterion afterwards. *)
Definition addValuePair (numericalValue : Z) (literalValue : string) (c : t)
    : bool * option errorDetail * t :=
  match mValuePairs c !! literalValue with
  | Some _ => (false, Some (LiteralAlreadyPresent literalValue), c)
  | None =>
      match getLiteralValue numericalValue c with
      | Some _ => (false, Some (NumericalAlreadyPresent numericalValue), c)
      | None =>
          (true, None,
           {| mValuePairs := <[literalValue := numericalValue]> (mValuePairs c);
              mMatchMethods := mMatchMethods c;
              mState := mState c;
              _uiNbModifications := _uiNbModifications c;
              mName := mName c;
              vptr := vptr c |})
      end
  end.

(** Modelled from the spec: [match] (Criterion.cpp is missing; Criterion.h
    documents [@throw std::out_of_range if the desired match method does
    not exist]) looks the method up in the match-method table and invokes
    it with the state to match. *)
Definition match_ (method : string) (state : Z) (c : t) : outcome bool :=
  match map_at (mMatchMethods c) method with
  | Returns m => Returns (m (mState c) state)
  | Throws e => Throws e
  end.

(** Modelled from the spec: [isMatchMethodAvailable] (Criterion.cpp is
    missing) is a pure existence check. *)
Definition isMatchMethodAvailable (method : string) (c : t) : bool :=
  Nat.eqb (map_count (mMatchMethods c) method) 1.

(** [new] of the class: the constructor the dynamic type names. *)
Definition construct (cls : class) (name : string) : t :=
  match cls with
  | CriterionClass => Criterion name
  | InclusiveCriterionClass => InclusiveCriterion name
  end.

(** The calls that change a criterion after its construction. *)
Inductive request : Type :=
  | SetCriterionState (iState : Z)
  | AddValuePair (numericalValue : Z) (literalValue : string)
  | ResetModifiedStatus.

Definition serve (r : request) (c : t) : t :=
  match r with
  | SetCriterionState iState => setCriterionState iState c
  | AddValuePair numericalValue literalValue =>
      (addValuePair numericalValue literalValue c).2
  | ResetModifiedStatus => resetModifiedStatus c
  end.

(** The criterion after a sequence of calls, served in order. *)
Definition serveAll (rs : list request) (c : t) : t :=
  foldl (fun c r => serve r c) c rs.

(** No two labels of the value-pair table share a code. *)
Definition oneToOne (c : t) : Prop :=
  forall (l1 l2 : string) (n : Z),
    mValuePairs c !! l1 = Some n -> mValuePairs c !! l2 = Some n -> l1 = l2.

End Criterion.

(** ** The registry *)

(** Addresses of the free store; a null pointer is [None]. *)
Abbreviation ptr := positive.

(** ** The document tree of the XML export *)

(** [CXmlElement] belongs to the XML serializer, which is missing: an
    element is taken to be a node with a type, attributes and children in
    document order. *)
#[warnings="-register-all"]
Inductive CXmlElement : Type :=
  | XmlElement (type : string) (attributes : list (string * string))
      (children : list CXmlElement).

Definition xmlType (e : CXmlElement) : string :=
  match e with XmlElement type _ _ => type end.

Definition xmlAttributes (e : CXmlElement) : list (string * string) :=
  match e with XmlElement _ attributes _ => attributes end.

Definition xmlChildren (e : CXmlElement) : list CXmlElement :=
  match e with XmlElement _ _ children => children end.

(** The element [createChild(child, strType)] creates: it has the type and
    nothing else yet. *)
Definition newChild (strType : string) : CXmlElement := XmlElement strType [] [].

(** The parent once the child that [createChild] put behind its children
    has been filled in. *)
Definition withChild (parent child : CXmlElement) : CXmlElement :=
  XmlElement (xmlType parent) (xmlAttributes parent) (xmlChildren parent ++ [child]).

Module Criteria.

(** Modelled from the spec: the members of [Criteria] (Criteria.h is
    missing). [mCriteria] is a mapping from criterion name to the
    [CriterionWrapper] of an exclusively owned criterion, an owning pointer.
    The state the registry works on is that member together with the free
    store, which holds the criteria that [new] allocated. *)
Record t : Type := mk {
  store : gmap ptr Criterion.t;
  mCriteria : gmap string ptr
}.

(** A member function: it returns or throws, and leaves a state. *)
Definition M (A : Type) : Type := t -> outcome A * t.

#[global] Instance M_ret : MRet M := fun A a st => (Returns a, st).

#[global] Instance M_bind : MBind M := fun A B k m st =>
  match m st with
  | (Returns a, st') => k a st'
  | (Throws e, st') => (Throws e, st')
  end.

(** [try { body } catch (std::out_of_range&) { handler }] *)
Definition try_catch {A : Type} (body : M A) (handler : M A) : M A :=
  fun st =>
    match body st with
    | (Returns a, st') => (Returns a, st')
    | (Throws out_of_range, st') => handler st'
    end.

(** [for (auto& x : l) { body }] *)
Fixpoint for_each {X : Type} (l : list X) (body : X -> M unit) : M unit :=
  match l with
  | [] => mret tt
  | x :: l' => body x ;; for_each l' body
  end.

(** [Criteria::Criteria() : mCriteria()], in an empty free store. *)
Definition Criteria : t := {| store := ∅; mCriteria := ∅ |}.

(** [new T(...)]: the object is placed at an address not in use. *)
Definition new (obj : Criterion.t) : M ptr := fun st =>
  let p := fresh (dom (store st)) in
  (Returns p, {| store := <[p := obj]> (store st); mCriteria := mCriteria st |}).

(** [mCriteria.at(name)] *)
Definition at_ (name : string) : M ptr := fun st =>
  (map_at (mCriteria st) name, st).

(** [mCriteria.emplace(name, CriterionWrapper(p))]: the wrapper is inserted
    when no element has the key; otherwise the container is left as it is
    and the wrapper, which still owns [p], destroys the object. *)
Definition emplace (name : string) (p : ptr) : M bool := fun st =>
  match mCriteria st !! name with
  | None =>
      (Returns true, {| store := store st; mCriteria := <[name := p]> (mCriteria st) |})
  | Some _ =>
      (Returns false, {| store := delete p (store st); mCriteria := mCriteria st |})
  end.

(** A member call through a handle, [p->f()], where [f] changes the object.
    A handle of a well-formed registry points to a live object; on an
    address that holds none, where C++ leaves the behaviour undefined, the
    store is left alone. *)
Definition call (p : ptr) (f : Criterion.t -> Criterion.t) : M unit := fun st =>
  (Returns tt, {| store := alter f p (store st); mCriteria := mCriteria st |}).

Definition getCriterionPointer (name : string) : M (option ptr) :=
  try_catch (p ← at_ name; mret (Some p)) (mret None).

Definition createExclusiveCriterion (name : string) : M (option ptr) :=
  p ← new (Criterion.Criterion name);
  emplace name p ;;
  getCriterionPointer name.

Definition createInclusiveCriterion (name : string) : M (option ptr) :=
  p ← new (Criterion.InclusiveCriterion name);
  emplace name p ;;
  getCriterionPointer name.

Definition getSelectionCriterion (name : string) : M (option ptr) :=
  getCriterionPointer name.

Definition resetModifiedStatus : M unit := fun st =>
  for_each (iteration (mCriteria st))
    (fun criterion => call criterion.2 Criterion.resetModifiedStatus) st.

Section Listing.

(** [Criterion::getFormattedDescription] is defined in Criterion.cpp,
    which is missing: the formatting is a parameter of the listing. *)
Variable getFormattedDescription : bool -> bool -> Criterion.t -> string.

(** The description [p->getFormattedDescription(...)] of a live object;
    none on an address that holds no object, which a well-formed registry
    never hands over. *)
Definition describe (withTypeInfo humanReadable : bool) (st : t) (p : ptr)
    : option string :=
  getFormattedDescription withTypeInfo humanReadable <$> store st !! p.

(** [results] is the caller's list, handed over by reference: the list
    afterwards is the returned value. *)
Definition listSelectionCriteria (results : list string)
    (withTypeInfo humanReadable : bool) : M (list string) := fun st =>
  (Returns (foldl (fun results criterion =>
                     match describe withTypeInfo humanReadable st criterion.2 with
                     | Some description => results ++ [description]
                     | None => results
                     end)
                  results (iteration (mCriteria st))),
   st).

End Listing.

(** What the clients of a registry ask of it: the creation of a criterion, a
    reset of every modified status, or a call on the criterion they looked
    up by name. *)
Inductive request : Type :=
  | CreateExclusive (name : string)
  | CreateInclusive (name : string)
  | ResetModified
  | OnCriterion (name : string) (r : Criterion.request).

Definition serve (r : request) : M unit :=
  match r with
  | CreateExclusive name => createExclusiveCriterion name ;; mret tt
  | CreateInclusive name => createInclusiveCriterion name ;; mret tt
  | ResetModified => resetModifiedStatus
  | OnCriterion name r =>
      handle ← getSelectionCriterion name;
      match handle with
      | Some p => call p (Criterion.serve r)
      | None => mret tt
      end
  end.

(** The state after a sequence of requests on a new registry. *)
Definition run (rs : list request) : t := (for_each rs serve Criteria).2.

(** The registry owns live objects only, and each of them once. *)
Definition owns_live (st : t) : Prop :=
  map_Forall (fun _ p => is_Some (store st !! p)) (mCriteria st).

Definition owns_once (st : t) : Prop :=
  NoDup (map_to_list (mCriteria st)).*2.

Definition wf (st : t) : Prop := owns_live st /\ owns_once st.

#[global] Instance wf_dec (st : t) : Decision (wf st).
Proof. unfold wf, owns_live, owns_once. apply _. Defined.

(** The criterion registered under a name, if any. *)
Definition registered (name : string) (st : t) : option Criterion.t :=
  p ← mCriteria st !! name; store st !! p.

(** The class of the criterion a request constructs for a name, if it
    constructs one for it. *)
Definition creates (name : string) (r : request) : option Criterion.class :=
  match r with
  | CreateExclusive n =>
      if decide (n = name) then Some Criterion.CriterionClass else None
  | CreateInclusive n =>
      if decide (n = name) then Some Criterion.InclusiveCriterionClass else None
  | ResetModified => None
  | OnCriterion _ _ => None
  end.

(** The class the first creation request for a name asks for. *)
Fixpoint firstCreation (name : string) (rs : list request)
    : option Criterion.class :=
  match rs with
  | [] => None
  | r :: rs' =>
      match creates name r with
      | Some cls => Some cls
      | None => firstCreation name rs'
      end
  end.

Section XmlExport.

(** [CXmlSerializingContext] and [Criterion::toXml] are defined in files
    that are missing: the context is any type, and the export of one
    criterion is a parameter, which fills in the element it is given and
    may change the context. *)
Variable CXmlSerializingContext : Type.
Variable Criterion_toXml :
  Criterion.t -> CXmlElement -> CXmlSerializingContext ->
  CXmlElement * CXmlSerializingContext.

(** One turn of the loop of [toXml]: the child is created, then filled in
    by the criterion (left as created on an address that holds no object,
    which a well-formed registry never hands over). *)
Definition exportChild (st : t) (serializingContext : CXmlSerializingContext)
    (p : ptr) : CXmlElement * CXmlSerializingContext :=
  let xmlChildElement := newChild "SelectionCriterion" in
  match store st !! p with
  | Some c => Criterion_toXml c xmlChildElement serializingContext
  | None => (xmlChildElement, serializingContext)
  end.

(** [xmlElement] and [serializingContext] are handed over by reference:
    what they are afterwards is the returned value. *)
Definition toXml (xmlElement : CXmlElement)
    (serializingContext : CXmlSerializingContext)
    : M (CXmlElement * CXmlSerializingContext) := fun st =>
  (Returns (foldl (fun document criterion =>
                     let exported := exportChild st document.2 criterion.2 in
                     (withChild document.1 exported.1, exported.2))
                  (xmlElement, serializingContext)
                  (iteration (mCriteria st))),
   st).

End XmlExport.

End Criteria.

(** * The iteration order *)

Module IterationFacts.

Lemma ascii_compare_refl (a : ascii) : Ascii.compare a a = Eq.
Proof. apply N.compare_refl. Qed.

Lemma ascii_compare_lt_trans (a b c : ascii) :
  Ascii.compare a b = Lt -> Ascii.compare b c = Lt -> Ascii.compare a c = Lt.
Proof.
  unfold Ascii.compare. rewrite !N.compare_lt_iff. apply N.lt_trans.
Qed.

Lemma string_compare_refl (s : string) : String.compare s s = Eq.
Proof.
  induction s as [| a s IH]; [done |].
  simpl. by rewrite ascii_compare_refl.
Qed.

Lemma string_compare_lt_trans (s1 s2 s3 : string) :
  String.compare s1 s2 = Lt -> String.compare s2 s3 = Lt ->
  String.compare s1 s3 = Lt.
Proof.
  revert s2 s3. induction s1 as [| a s1 IH]; intros [| b s2] [| c s3];
    simpl; try done.
  destruct (Ascii.compare a b) eqn:Hab; try done;
    destruct (Ascii.compare b c) eqn:Hbc; try done.
  - apply Ascii.compare_eq_iff in Hab as ->.
    apply Ascii.compare_eq_iff in Hbc as ->.
    rewrite ascii_compare_refl. apply IH.
  - apply Ascii.compare_eq_iff in Hab as ->. by rewrite Hbc.
  - apply Ascii.compare_eq_iff in Hbc as <-. by rewrite Hab.
  - by rewrite (ascii_compare_lt_trans a b c Hab Hbc).
Qed.

Lemma string_leb_trans (s1 s2 s3 : string) :
  String.leb s1 s2 = true -> String.leb s2 s3 = true -> String.leb s1 s3 = true.
Proof.
  unfold String.leb.
  destruct (String.compare s1 s2) eqn:H12; try done;
    destruct (String.compare s2 s3) eqn:H23; try done; intros _ _.
  - apply String.compare_eq_iff in H12 as ->. by rewrite H23.
  - apply String.compare_eq_iff in H12 as ->. by rewrite H23.
  - apply String.compare_eq_iff in H23 as <-. by rewrite H12.
  - by rewrite (string_compare_lt_trans s1 s2 s3 H12 H23).
Qed.

Lemma string_leb_neq_ltb (s1 s2 : string) :
  String.leb s1 s2 = true -> s1 <> s2 -> String.ltb s1 s2 = true.
Proof.
  unfold String.leb, String.ltb.
  destruct (String.compare s1 s2) eqn:H12; try done.
  intros _ Hne. by apply String.compare_eq_iff in H12.
Qed.

Section Order.

Context {V : Type}.

#[local] Instance key_le_total : Total (@key_le V).
Proof. intros x y. apply String.leb_total. Qed.

#[local] Instance key_le_trans : Transitive (@key_le V).
Proof. intros x y z. apply string_leb_trans. Qed.

(** The iteration visits what the map holds, each element once. *)
Lemma iteration_Permutation (m : gmap string V) : iteration m ≡ₚ map_to_list m.
Proof. apply merge_sort_Permutation. Qed.

Lemma elem_of_iteration (m : gmap string V) (k : string) (v : V) :
  (k, v) ∈ iteration m <-> m !! k = Some v.
Proof. rewrite iteration_Permutation. apply elem_of_map_to_list. Qed.

Lemma NoDup_iteration (m : gmap string V) : NoDup (iteration m).
Proof. rewrite iteration_Permutation. apply NoDup_map_to_list. Qed.

Lemma NoDup_fst_iteration (m : gmap string V) : NoDup (iteration m).*1.
Proof. rewrite iteration_Permutation. apply NoDup_fst_map_to_list. Qed.

Lemma length_iteration (m : gmap string V) : length (iteration m) = size m.
Proof. rewrite iteration_Permutation. apply length_map_to_list. Qed.

Lemma iteration_empty : iteration (∅ : gmap string V) = [].
Proof. unfold iteration. by rewrite map_to_list_empty. Qed.

Lemma iteration_insert (m : gmap string V) (k : string) (v : V) :
  m !! k = None -> iteration (<[k := v]> m) ≡ₚ (k, v) :: iteration m.
Proof.
  intros Hk. rewrite !iteration_Permutation. by apply map_to_list_insert.
Qed.

(** Sorted by keys that are all different is sorted strictly. *)
Lemma sorted_strictly (l : list (string * V)) :
  StronglySorted key_le l -> NoDup l.*1 -> StronglySorted key_lt l.
Proof.
  induction 1 as [| x l Hsorted IH Hx]; intros Hnodup; [constructor |].
  apply NoDup_cons in Hnodup as [Hnotin Hnodup].
  constructor; [by apply IH |].
  apply Forall_forall. intros y Hy.
  apply string_leb_neq_ltb.
  - rewrite Forall_forall in Hx. by apply Hx.
  - intros Heq. apply Hnotin. rewrite Heq. apply list_elem_of_fmap. eauto.
Qed.

(** The keys come in strictly increasing order. *)
Lemma iteration_sorted (m : gmap string V) : StronglySorted key_lt (iteration m).
Proof.
  apply sorted_strictly; [| apply NoDup_fst_iteration].
  apply StronglySorted_merge_sort; apply _.
Qed.

End Order.

(** The keys decide the order, not the insertions or the hidden layout of
    the map. *)
Example iteration_by_key :
  (iteration (<["c" := 1]> (<["a" := 2]> (<["d" := 3]> (<["b" := 4]> ∅)))))
    = [("a", 2); ("b", 4); ("c", 1); ("d", 3)] /\
  (iteration (<["Mode" := 1]> (<["Mod" := 2]> (<["a" := 3]> (<["Z" := 4]> ∅)))))
    = [("Mod", 2); ("Mode", 1); ("Z", 4); ("a", 3)].
Proof. split; vm_compute; reflexivity. Qed.

End IterationFacts.

(** * Properties of a criterion *)

Module CriterionFacts.
Import Criterion IterationFacts.

(** ** Machine arithmetic *)

Lemma wrap_uint32_succ_neq (n : N) : wrap_uint32 (n + 1) <> n.
Proof.
  unfold wrap_uint32. change (2 ^ 32)%N with 4294967296%N. intros H.
  pose proof (N.Div0.div_mod (n + 1) 4294967296) as E.
  rewrite H in E. lia.
Qed.

Lemma wrap_uint32_one : wrap_uint32 (0 + 1) = 1%N.
Proof. reflexivity. Qed.

(** "All bits of the argument are set in the current state". *)
Lemma land_includes_bits (state arg : Z) :
  Z.land state arg = arg <->
  forall i, 0 <= i -> Z.testbit arg i = true -> Z.testbit state i = true.
Proof.
  split.
  - intros H i Hi Ha. rewrite <- H, Z.land_spec in Ha.
    by apply andb_true_iff in Ha as [Hs _].
  - intros H. apply Z.bits_inj'. intros i Hi. rewrite Z.land_spec.
    destruct (Z.testbit arg i) eqn:Ha.
    + by rewrite (H i Hi Ha).
    + apply andb_false_r.
Qed.

(** "No bit of the argument is set in the current state". *)
Lemma land_excludes_bits (state arg : Z) :
  Z.land state arg = 0 <->
  forall i, 0 <= i -> Z.testbit arg i = true -> Z.testbit state i = false.
Proof.
  split.
  - intros H i Hi Ha.
    assert (Z.testbit (Z.land state arg) i = false) as Hl
      by (rewrite H; apply Z.bits_0).
    rewrite Z.land_spec, Ha, andb_true_r in Hl. exact Hl.
  - intros H. apply Z.bits_inj'. intros i Hi.
    rewrite Z.land_spec, Z.bits_0.
    destruct (Z.testbit arg i) eqn:Ha.
    + by rewrite (H i Hi Ha).
    + apply andb_false_r.
Qed.

(** ** The members a call leaves alone *)

Lemma serve_mMatchMethods (r : request) (c : t) :
  mMatchMethods (serve r c) = mMatchMethods c.
Proof.
  destruct r as [iState | n l |]; simpl; try reflexivity.
  unfold addValuePair.
  destruct (mValuePairs c !! l); [reflexivity |].
  destruct (getLiteralValue n c); reflexivity.
Qed.

Lemma serve_vptr (r : request) (c : t) : vptr (serve r c) = vptr c.
Proof.
  destruct r as [iState | n l |]; simpl; try reflexivity.
  unfold addValuePair.
  destruct (mValuePairs c !! l); [reflexivity |].
  destruct (getLiteralValue n c); reflexivity.
Qed.

(** [mMatchMethods] is a [const] member: no sequence of calls changes it. *)
Lemma serveAll_mMatchMethods (rs : list request) (c : t) :
  mMatchMethods (serveAll rs c) = mMatchMethods c.
Proof.
  revert c. induction rs as [| r rs IH]; intros c; [reflexivity |].
  unfold serveAll in *. simpl. rewrite IH. apply serve_mMatchMethods.
Qed.

Lemma serveAll_vptr (rs : list request) (c : t) :
  vptr (serveAll rs c) = vptr c.
Proof.
  revert c. induction rs as [| r rs IH]; intros c; [reflexivity |].
  unfold serveAll in *. simpl. rewrite IH. apply serve_vptr.
Qed.

(** ** Match methods *)

Lemma isMatchMethodAvailable_lookup (method : string) (c : t) :
  isMatchMethodAvailable method c = true <-> is_Some (mMatchMethods c !! method).
Proof.
  unfold isMatchMethodAvailable, map_count.
  destruct (mMatchMethods c !! method); simpl.
  - split; [eauto | reflexivity].
  - split; [discriminate | intros [? ?]; discriminate].
Qed.

(** The probe tells exactly when [match] returns. *)
Lemma isMatchMethodAvailable_match (method : string) (state : Z) (c : t) :
  isMatchMethodAvailable method c = true <->
  exists b, match_ method state c = Returns b.
Proof.
  rewrite isMatchMethodAvailable_lookup. unfold match_, map_at.
  destruct (mMatchMethods c !! method); split.
  - eauto.
  - eauto.
  - intros [? ?]; discriminate.
  - intros [? ?]; discriminate.
Qed.

(** C1. For every criterion and every method name that is not in its
    match-method table, [match] fails with the out-of-range ("unknown
    method") error, which reaches the caller as a thrown exception and not
    as a returned false, and [isMatchMethodAvailable] on the same name
    returns false (it is a function to [bool]: it cannot fail). *)
Theorem match_unknown_method (c : t) (method : string) (state : Z) :
  mMatchMethods c !! method = None ->
  match_ method state c = Throws out_of_range /\
  match_ method state c <> Returns false /\
  isMatchMethodAvailable method c = false.
Proof.
  intros Hnone. unfold match_, isMatchMethodAvailable, map_at, map_count.
  rewrite Hnone. repeat split. discriminate.
Qed.

Lemma match_unknown_method_witness :
  match_ "Includes" 1 (Criterion "Mode") = Throws out_of_range /\
  match_ "Includes" 1 (Criterion "Mode") <> Returns false /\
  isMatchMethodAvailable "Includes" (Criterion "Mode") = false.
Proof. apply match_unknown_method. reflexivity. Defined.

Lemma exclusive_lookup (method : string) :
  exclusiveMatchMethods !! method =
    if decide (method = "Is") then Some (fun state arg => state =? arg)
    else if decide (method = "Is Not")
         then Some (fun state arg => negb (state =? arg))
         else None.
Proof.
  unfold exclusiveMatchMethods.
  repeat case_decide; subst; simplify_map_eq; reflexivity.
Qed.

Lemma inclusive_lookup (method : string) :
  inclusiveMatchMethods !! method =
    if decide (method = "Includes")
    then Some (fun state arg => Z.land state arg =? arg)
    else if decide (method = "Excludes")
         then Some (fun state arg => Z.land state arg =? 0)
         else None.
Proof.
  unfold inclusiveMatchMethods.
  repeat case_decide; subst; simplify_map_eq; reflexivity.
Qed.

(** C2. For every inclusive criterion, whatever calls it has served, with
    current state [s] and for every argument [a]: [match("Includes", a)]
    returns true iff [(s & a) == a], so it returns true for [a == 0], and
    [match("Excludes", a)] returns true iff [(s & a) == 0]. For every
    exclusive criterion: "Is" returns whether the state equals the argument,
    "Is Not" whether it differs, and a method is available iff it is one of
    these two; [match] throws on every other name. *)
Theorem match_methods_semantics (name : string) (rs : list request) (a : Z) :
  let inc := serveAll rs (InclusiveCriterion name) in
  let exc := serveAll rs (Criterion name) in
  (exists b, match_ "Includes" a inc = Returns b /\
             (b = true <-> Z.land (mState inc) a = a)) /\
  match_ "Includes" 0 inc = Returns true /\
  (exists b, match_ "Excludes" a inc = Returns b /\
             (b = true <-> Z.land (mState inc) a = 0)) /\
  (exists b, match_ "Is" a exc = Returns b /\ (b = true <-> mState exc = a)) /\
  (exists b, match_ "Is Not" a exc = Returns b /\
             (b = true <-> mState exc <> a)) /\
  (forall method, isMatchMethodAvailable method exc = true <->
                  method = "Is" \/ method = "Is Not") /\
  (forall method, match_ method a exc = Throws out_of_range <->
                  method <> "Is" /\ method <> "Is Not").
Proof.
  intros inc exc.
  assert (mMatchMethods inc = inclusiveMatchMethods) as Hinc
    by apply serveAll_mMatchMethods.
  assert (mMatchMethods exc = exclusiveMatchMethods) as Hexc
    by apply serveAll_mMatchMethods.
  unfold match_, map_at. rewrite Hinc, Hexc.
  rewrite !inclusive_lookup, !exclusive_lookup. simpl.
  split; [| split; [| split; [| split; [| split; [| split]]]]].
  - eexists. split; [reflexivity |]. apply Z.eqb_eq.
  - by rewrite Z.land_0_r.
  - eexists. split; [reflexivity |]. apply Z.eqb_eq.
  - eexists. split; [reflexivity |]. apply Z.eqb_eq.
  - eexists. split; [reflexivity |].
    rewrite negb_true_iff. apply Z.eqb_neq.
  - intros method. rewrite isMatchMethodAvailable_lookup, Hexc, exclusive_lookup.
    repeat case_decide; split; intros Hm; eauto.
    + destruct Hm as [? ?]; discriminate.
    + destruct Hm; contradiction.
  - intros method. rewrite exclusive_lookup.
    repeat case_decide; split; intros Hm; try discriminate; try tauto.
Qed.

(** ** State and modification counter *)

(** C3. For every criterion, [setCriterionState] stores the new state
    whatever it is, increments the modification counter iff the new state
    differs from the previous one, and leaves every other member alone (it
    has no way to signal an error). [hasBeenModified] is false right after
    construction; on a criterion that is not modified it becomes true iff
    the state that is set differs from the current one; setting the current
    state again never changes it. *)
Theorem setCriterionState_modification (c : t) (newState : Z) :
  let c' := setCriterionState newState c in
  getCriterionState c' = newState /\
  (_uiNbModifications c' = wrap_uint32 (_uiNbModifications c + 1) <->
   newState <> mState c) /\
  (_uiNbModifications c' = _uiNbModifications c <-> newState = mState c) /\
  (mValuePairs c' = mValuePairs c /\ mMatchMethods c' = mMatchMethods c /\
   mName c' = mName c /\ vptr c' = vptr c) /\
  (forall cls name, hasBeenModified (construct cls name) = false) /\
  (hasBeenModified c = false ->
   (hasBeenModified c' = true <-> newState <> mState c)) /\
  hasBeenModified (setCriterionState (mState c) c) = hasBeenModified c.
Proof.
  intros c'. subst c'. unfold getCriterionState, hasBeenModified. simpl.
  pose proof (wrap_uint32_succ_neq (_uiNbModifications c)) as Hneq.
  split; [reflexivity |].
  split; [| split; [| split; [| split; [| split]]]].
  - destruct (Z.eqb_spec newState (mState c)) as [E | E]; split; intros H;
      congruence.
  - destruct (Z.eqb_spec newState (mState c)) as [E | E]; split; intros H;
      congruence.
  - repeat split.
  - intros [|] name; reflexivity.
  - intros Hclean. apply N.ltb_ge in Hclean.
    assert (_uiNbModifications c = 0%N) as -> by lia.
    destruct (Z.eqb_spec newState (mState c)) as [E | E].
    + split; [discriminate | contradiction].
    + rewrite wrap_uint32_one. split; [intros _; exact E | reflexivity].
  - by rewrite Z.eqb_refl.
Qed.

(** ** The value-pair table *)

Lemma getLiteralValue_Some (n : Z) (l : string) (c : t) :
  getLiteralValue n c = Some l -> mValuePairs c !! l = Some n.
Proof.
  unfold getLiteralValue.
  destruct (list_find _ _) as [[i [l' n']] |] eqn:Hfind; [| discriminate].
  intros [= ->]. apply list_find_Some in Hfind as (Hi & Hn & _).
  simpl in Hn. subst n'. apply elem_of_iteration.
  eapply list_elem_of_lookup_2, Hi.
Qed.

Lemma getLiteralValue_None (n : Z) (c : t) :
  getLiteralValue n c = None <-> forall l, mValuePairs c !! l <> Some n.
Proof.
  unfold getLiteralValue. split.
  - destruct (list_find _ _) as [[i [l' n']] |] eqn:Hfind; [discriminate |].
    intros _ l Hl. apply list_find_None in Hfind.
    apply elem_of_iteration in Hl.
    rewrite Forall_forall in Hfind. by apply (Hfind _ Hl).
  - intros Hno.
    destruct (list_find _ _) as [[i [l' n']] |] eqn:Hfind; [| reflexivity].
    apply list_find_Some in Hfind as (Hi & Hn & _). simpl in Hn. subst n'.
    exfalso. apply (Hno l'). apply elem_of_iteration.
    eapply list_elem_of_lookup_2, Hi.
Qed.

(** A code that some label carries is found, under some label. *)
Lemma getLiteralValue_registered (n : Z) (l : string) (c : t) :
  mValuePairs c !! l = Some n -> is_Some (getLiteralValue n c).
Proof.
  intros Hl. destruct (getLiteralValue n c) eqn:E; [eauto |].
  exfalso. by apply (proj1 (getLiteralValue_None n c) E l).
Qed.

Lemma addValuePair_success (n : Z) (l : string) (c : t) :
  mValuePairs c !! l = None ->
  (forall l', mValuePairs c !! l' <> Some n) ->
  addValuePair n l c =
    (true, None,
     mk (<[l := n]> (mValuePairs c)) (mMatchMethods c) (mState c)
        (_uiNbModifications c) (mName c) (vptr c)).
Proof.
  intros Hl Hn. unfold addValuePair. rewrite Hl.
  by rewrite (proj2 (getLiteralValue_None n c) Hn).
Qed.

Lemma addValuePair_failure (n : Z) (l : string) (c : t) :
  is_Some (mValuePairs c !! l) \/ (exists l', mValuePairs c !! l' = Some n) ->
  addValuePair n l c = (false, Some (LiteralAlreadyPresent l), c) \/
  addValuePair n l c = (false, Some (NumericalAlreadyPresent n), c).
Proof.
  intros Hdup. unfold addValuePair.
  destruct (mValuePairs c !! l) as [n' |] eqn:Hl; [by left |].
  destruct Hdup as [[? ?] | [l' Hl']]; [discriminate |].
  destruct (getLiteralValue_registered n l' c Hl') as [l'' ->]. by right.
Qed.

(** Whatever the first call did, the same pair is refused afterwards. *)
Lemma addValuePair_again (n : Z) (l : string) (c : t) :
  let c1 := (addValuePair n l c).2 in
  exists e, addValuePair n l c1 = (false, Some e, c1).
Proof.
  intros c1.
  assert (is_Some (mValuePairs c1 !! l) \/
          (exists l', mValuePairs c1 !! l' = Some n)) as Hdup.
  { subst c1. unfold addValuePair.
    destruct (mValuePairs c !! l) as [n' |] eqn:Hl; [left; simpl; eauto |].
    destruct (getLiteralValue n c) as [l' |] eqn:Hn; simpl.
    - right. exists l'. by apply getLiteralValue_Some.
    - left. rewrite lookup_insert_eq. eauto. }
  destruct (addValuePair_failure n l c1 Hdup) as [-> | ->]; eauto.
Qed.

(** C4. For every criterion, [addValuePair] returns false, with an error
    that names the offending value, when the literal or the numerical value
    is already in the value-pair table, and the criterion (so the table) is
    then exactly what it was; otherwise it returns true and the table is the
    former one with the pair inserted, every other member being untouched.
    Adding a pair once more after it was added is always refused and alters
    nothing. *)
Theorem addValuePair_duplicate_or_insert (c : t) (n : Z) (l : string) :
  (is_Some (mValuePairs c !! l) \/ (exists l', mValuePairs c !! l' = Some n) ->
   addValuePair n l c = (false, Some (LiteralAlreadyPresent l), c) \/
   addValuePair n l c = (false, Some (NumericalAlreadyPresent n), c)) /\
  (mValuePairs c !! l = None -> (forall l', mValuePairs c !! l' <> Some n) ->
   exists c', addValuePair n l c = (true, None, c') /\
     mValuePairs c' = <[l := n]> (mValuePairs c) /\
     mMatchMethods c' = mMatchMethods c /\ mState c' = mState c /\
     _uiNbModifications c' = _uiNbModifications c /\
     mName c' = mName c /\ vptr c' = vptr c /\
     exists e, addValuePair n l c' = (false, Some e, c')) /\
  (let c1 := (addValuePair n l c).2 in
   exists e, addValuePair n l c1 = (false, Some e, c1)).
Proof.
  split; [apply addValuePair_failure | split; [| apply addValuePair_again]].
  intros Hl Hn. eexists. split; [by apply addValuePair_success |].
  repeat (split; [reflexivity |]).
  pose proof (addValuePair_again n l c) as Hagain.
  by rewrite (addValuePair_success n l c Hl Hn) in Hagain.
Qed.

Lemma addValuePair_oneToOne (n : Z) (l : string) (c : t) :
  oneToOne c -> oneToOne (addValuePair n l c).2.
Proof.
  intros Hc. unfold addValuePair.
  destruct (mValuePairs c !! l) as [n' |] eqn:Hl; [exact Hc |].
  destruct (getLiteralValue n c) as [l' |] eqn:Hn; [exact Hc |].
  pose proof (proj1 (getLiteralValue_None n c) Hn) as Hfree.
  intros l1 l2 k. simpl.
  destruct (decide (l1 = l)) as [-> | H1], (decide (l2 = l)) as [-> | H2];
    [done | | |].
  - rewrite lookup_insert_eq, lookup_insert_ne by done.
    intros [= <-] H. by destruct (Hfree l2).
  - rewrite lookup_insert_eq, lookup_insert_ne by done.
    intros H [= <-]. by destruct (Hfree l1).
  - rewrite !lookup_insert_ne by done. apply Hc.
Qed.

(** Every call keeps the table one-to-one. *)
Lemma serve_oneToOne (r : request) (c : t) : oneToOne c -> oneToOne (serve r c).
Proof.
  destruct r as [iState | n l |]; simpl; [done | | done].
  apply addValuePair_oneToOne.
Qed.

Lemma serveAll_oneToOne (rs : list request) (c : t) :
  oneToOne c -> oneToOne (serveAll rs c).
Proof.
  revert c. induction rs as [| r rs IH]; intros c Hc; [exact Hc |].
  apply IH, serve_oneToOne, Hc.
Qed.

Lemma construct_oneToOne (cls : class) (name : string) :
  oneToOne (construct cls name).
Proof. destruct cls; intros l1 l2 n H; simpl in H; by rewrite lookup_empty in H. Qed.

Lemma getNumericalValue_registered (n : Z) (l : string) (c : t) :
  mValuePairs c !! l = Some n -> getNumericalValue l c = Some n.
Proof.
  intros Hl. unfold getNumericalValue, getAtomicNumericalValue. by rewrite Hl.
Qed.

Lemma getLiteralValue_oneToOne (n : Z) (l : string) (c : t) :
  oneToOne c -> mValuePairs c !! l = Some n -> getLiteralValue n c = Some l.
Proof.
  intros Hc Hl. destruct (getLiteralValue_registered n l c Hl) as [l' Hl'].
  rewrite Hl'. f_equal. apply (Hc l' l n); [| exact Hl].
  by apply getLiteralValue_Some.
Qed.

(** C5. For every criterion, whatever its kind and whatever calls it has
    served since its construction (among them any sequence of successful
    [addValuePair]), the value-pair table is a one-to-one correspondence: no
    two labels have the same code, no two codes have the same label, every
    further call keeps it so, and on each registered pair [(n, l)]
    [getNumericalValue l] is [n] and [getLiteralValue n] is [l], the two
    lookups being inverse of each other on the registered pairs. *)
Theorem value_pairs_bijective (cls : class) (name : string) (rs : list request) :
  let c := serveAll rs (construct cls name) in
  oneToOne c /\
  (forall n1 n2 l,
     getLiteralValue n1 c = Some l -> getLiteralValue n2 c = Some l -> n1 = n2) /\
  (forall r, oneToOne (serve r c)) /\
  (forall n l, mValuePairs c !! l = Some n ->
     getNumericalValue l c = Some n /\ getLiteralValue n c = Some l) /\
  (forall n l, getLiteralValue n c = Some l <->
     mValuePairs c !! l = Some n /\ getNumericalValue l c = Some n).
Proof.
  intros c.
  assert (oneToOne c) as Hc by apply serveAll_oneToOne, construct_oneToOne.
  split; [exact Hc |]. split; [| split; [| split]].
  - intros n1 n2 l H1%getLiteralValue_Some H2%getLiteralValue_Some. congruence.
  - intros r. by apply serve_oneToOne.
  - intros n l Hl. split.
    + by apply getNumericalValue_registered.
    + by apply getLiteralValue_oneToOne.
  - intros n l. split.
    + intros Hl%getLiteralValue_Some. split; [exact Hl |].
      by apply getNumericalValue_registered.
    + intros [Hl _]. by apply getLiteralValue_oneToOne.
Qed.

(** ** The worked examples of the specification *)

Example exclusive_A_B :
  let c := serveAll [AddValuePair 0 "A"; AddValuePair 1 "B"; SetCriterionState 1]
             (Criterion "Mode") in
  getLiteralValue (getCriterionState c) c = Some "B" /\
  match_ "Is" 1 c = Returns true /\
  match_ "Is Not" 1 c = Returns false /\
  match_ "Includes" 1 c = Throws out_of_range /\
  hasBeenModified c = true.
Proof. vm_compute. repeat split. Qed.

Example inclusive_X_Y_Z :
  let c := serveAll [AddValuePair 1 "X"; AddValuePair 2 "Y"; AddValuePair 4 "Z";
                     SetCriterionState 5] (InclusiveCriterion "Features") in
  match_ "Includes" 1 c = Returns true /\
  match_ "Includes" 2 c = Returns false /\
  match_ "Excludes" 2 c = Returns true /\
  getNumericalValue "X|Z" c = Some 5 /\
  getNumericalValue "Z" c = Some 4 /\
  getNumericalValue "X|W" c = None.
Proof. vm_compute. repeat split. Qed.

Example addValuePair_twice :
  let first := addValuePair 1 "X" (Criterion "Mode") in
  let second := addValuePair 1 "X" first.2 in
  first.1 = (true, None) /\
  second.1 = (false, Some (LiteralAlreadyPresent "X")) /\
  second.2 = first.2 /\
  (addValuePair 1 "Y" first.2).1 = (false, Some (NumericalAlreadyPresent 1)).
Proof. vm_compute. repeat split. Qed.

End CriterionFacts.

(** * Properties of the registry *)

Module CriteriaFacts.
Import Criteria IterationFacts.

Lemma store_fresh (st : t) : store st !! fresh (dom (store st)) = None.
Proof. apply not_elem_of_dom, is_fresh. Qed.

(** The try block of [getCriterionPointer] never lets the exception out:
    the pointer is the looked-up one, or null. *)
Lemma getCriterionPointer_lookup (name : string) (st : t) :
  getCriterionPointer name st = (Returns (mCriteria st !! name), st).
Proof.
  unfold getCriterionPointer, try_catch, at_, map_at, mbind, M_bind, mret, M_ret.
  destruct (mCriteria st !! name); reflexivity.
Qed.

(** A creation, step by step: [new], then [emplace], then the lookup. *)
Lemma create_unfold (obj : Criterion.t) (name : string) (st : t) :
  (p ← new obj; emplace name p ;; getCriterionPointer name) st =
  let p := fresh (dom (store st)) in
  match mCriteria st !! name with
  | Some q => (Returns (Some q), st)
  | None =>
      (Returns (Some p),
       {| store := <[p := obj]> (store st);
          mCriteria := <[name := p]> (mCriteria st) |})
  end.
Proof.
  unfold mbind, M_bind, new, emplace. simpl.
  destruct (mCriteria st !! name) as [q |] eqn:Hname;
    rewrite getCriterionPointer_lookup; simpl.
  - rewrite Hname, delete_insert_id by apply store_fresh. by destruct st.
  - by rewrite lookup_insert_eq.
Qed.

(** C6. For every registry and every name that is not registered in it,
    [getCriterionPointer], and so both [getSelectionCriterion], return the
    null pointer and leave the registry as it is; whatever the name, the
    lookup returns and never throws. *)
Theorem getCriterion_unregistered_absent (st : t) (name : string) :
  mCriteria st !! name = None ->
  getCriterionPointer name st = (Returns None, st) /\
  getSelectionCriterion name st = (Returns None, st) /\
  (forall name', exists handle,
     getSelectionCriterion name' st = (Returns handle, st)).
Proof.
  intros Hname. unfold getSelectionCriterion.
  rewrite getCriterionPointer_lookup, Hname. repeat split.
  intros name'. rewrite getCriterionPointer_lookup. eauto.
Qed.

Lemma getCriterion_unregistered_absent_witness :
  getCriterionPointer "Mode" (run [CreateExclusive "Route"]) =
    (Returns None, run [CreateExclusive "Route"]) /\
  getSelectionCriterion "Mode" (run [CreateExclusive "Route"]) =
    (Returns None, run [CreateExclusive "Route"]) /\
  (forall name', exists handle,
     getSelectionCriterion name' (run [CreateExclusive "Route"]) =
       (Returns handle, run [CreateExclusive "Route"])).
Proof. apply getCriterion_unregistered_absent. vm_compute. reflexivity. Defined.

(** C7, as the specification states it, fails: creating an inclusive
    criterion under the name of a registered exclusive one does not leave an
    inclusive criterion under that name. *)
Lemma create_duplicate_not_overwritten :
  let st := run [CreateExclusive "Mode"] in
  let st' := (createInclusiveCriterion "Mode" st).2 in
  is_Some (mCriteria st !! "Mode") /\
  registered "Mode" st' <> Some (Criterion.InclusiveCriterion "Mode") /\
  Criterion.isInclusive <$> registered "Mode" st' = Some false.
Proof.
  split; [| split].
  - vm_compute. eauto.
  - intros H. apply (f_equal (fmap Criterion.isInclusive)) in H.
    vm_compute in H. discriminate.
  - vm_compute. reflexivity.
Qed.

(** C7, amended. For every registry, [createExclusiveCriterion] and
    [createInclusiveCriterion] on a name that is already registered do not
    overwrite the entry: the registry and the criteria it owns are what they
    were, so the name still leads to the criterion registered before. *)
Theorem create_duplicate_keeps_prior (st : t) (name : string) (q : ptr) :
  mCriteria st !! name = Some q ->
  (createExclusiveCriterion name st).2 = st /\
  (createInclusiveCriterion name st).2 = st /\
  registered name (createExclusiveCriterion name st).2 = registered name st /\
  registered name (createInclusiveCriterion name st).2 = registered name st.
Proof.
  intros Hname. unfold createExclusiveCriterion, createInclusiveCriterion.
  rewrite !create_unfold. simpl. by rewrite Hname.
Qed.

Lemma create_duplicate_keeps_prior_witness :
  (createExclusiveCriterion "Mode" (run [CreateInclusive "Mode"])).2 =
    run [CreateInclusive "Mode"] /\
  (createInclusiveCriterion "Mode" (run [CreateInclusive "Mode"])).2 =
    run [CreateInclusive "Mode"] /\
  registered "Mode"
    (createExclusiveCriterion "Mode" (run [CreateInclusive "Mode"])).2 =
    registered "Mode" (run [CreateInclusive "Mode"]) /\
  registered "Mode"
    (createInclusiveCriterion "Mode" (run [CreateInclusive "Mode"])).2 =
    registered "Mode" (run [CreateInclusive "Mode"]).
Proof.
  apply (create_duplicate_keeps_prior _ _ 1%positive). vm_compute. reflexivity.
Defined.

(** C8. For every registry, [createExclusiveCriterion] and
    [createInclusiveCriterion] return a non-null handle under which the name
    is registered afterwards. When the name was not registered, the handle
    is a new address, it holds the criterion just constructed, and the
    registry owns it under the name, nothing else being changed. When the
    name was registered, the handle is the one registered before and the
    registry and its criteria are what they were: the handle refers to the
    criterion that was there, whatever the kind asked for. *)
Theorem create_returns_registered_handle (st : t) (name : string) :
  (exists p st',
     createExclusiveCriterion name st = (Returns (Some p), st') /\
     mCriteria st' !! name = Some p /\
     (mCriteria st !! name = None ->
      store st !! p = None /\
      store st' = <[p := Criterion.Criterion name]> (store st) /\
      mCriteria st' = <[name := p]> (mCriteria st) /\
      registered name st' = Some (Criterion.Criterion name)) /\
     (forall q, mCriteria st !! name = Some q ->
      p = q /\ st' = st /\ registered name st' = registered name st)) /\
  (exists p st',
     createInclusiveCriterion name st = (Returns (Some p), st') /\
     mCriteria st' !! name = Some p /\
     (mCriteria st !! name = None ->
      store st !! p = None /\
      store st' = <[p := Criterion.InclusiveCriterion name]> (store st) /\
      mCriteria st' = <[name := p]> (mCriteria st) /\
      registered name st' = Some (Criterion.InclusiveCriterion name)) /\
     (forall q, mCriteria st !! name = Some q ->
      p = q /\ st' = st /\ registered name st' = registered name st)).
Proof.
  unfold createExclusiveCriterion, createInclusiveCriterion.
  rewrite !create_unfold. simpl.
  destruct (mCriteria st !! name) as [q |] eqn:Hname.
  - split; exists q, st; (split; [reflexivity |]); (split; [exact Hname |]);
      (split; [discriminate |]); by intros ? [= <-].
  - split; eexists _, _; (split; [reflexivity |]); simpl;
      (split; [apply lookup_insert_eq |]); (split; [| discriminate]);
      intros _; (split; [apply store_fresh |]); repeat (split; [reflexivity |]);
      unfold registered; simpl; rewrite lookup_insert_eq; simpl;
      apply lookup_insert_eq.
Qed.

(** ** The registry owns live objects *)

Lemma Criteria_wf : wf Criteria.
Proof.
  split.
  - apply map_Forall_empty.
  - unfold owns_once. simpl. rewrite map_to_list_empty. constructor.
Qed.

(** The handles the registry holds, seen from the names. *)
Lemma elem_of_handles (st : t) (p : ptr) :
  p ∈ (map_to_list (mCriteria st)).*2 <-> exists name, mCriteria st !! name = Some p.
Proof.
  rewrite list_elem_of_fmap. split.
  - intros [[n q] [-> Hin]]. exists n. by apply elem_of_map_to_list.
  - intros [n Hn]. exists (n, p). split; [done |]. by apply elem_of_map_to_list.
Qed.

(** The loops visit exactly these handles. *)
Lemma elem_of_visited (st : t) (p : ptr) :
  p ∈ (iteration (mCriteria st)).*2 <-> exists name, mCriteria st !! name = Some p.
Proof. rewrite iteration_Permutation. apply elem_of_handles. Qed.

Lemma create_wf (obj : Criterion.t) (name : string) (st : t) :
  wf st -> wf ((p ← new obj; emplace name p ;; getCriterionPointer name) st).2.
Proof.
  intros [Hlive Honce]. rewrite create_unfold. simpl.
  destruct (mCriteria st !! name) as [q |] eqn:Hname; [by split |].
  pose proof (store_fresh st) as Hfresh.
  set (p := fresh (dom (store st))) in *.
  assert (forall n, mCriteria st !! n <> Some p) as Hnew.
  { intros n Hn. destruct (Hlive n p Hn) as [c Hc]. congruence. }
  split.
  - unfold owns_live. simpl. apply map_Forall_insert; [exact Hname |]. split.
    + rewrite lookup_insert_eq. eauto.
    + intros n r Hn. simpl. destruct (Hlive n r Hn) as [c Hc].
      rewrite lookup_insert_ne; [eauto |]. intros <-. by destruct (Hnew n).
  - unfold owns_once in *. simpl.
    rewrite (map_to_list_insert _ _ _ Hname). simpl.
    constructor; [| exact Honce].
    intros [n Hn]%elem_of_handles. by destruct (Hnew n).
Qed.

Lemma call_wf (p : ptr) (f : Criterion.t -> Criterion.t) (st : t) :
  wf st -> wf (call p f st).2.
Proof.
  intros [Hlive Honce]. split; [| exact Honce].
  intros n r Hn. simpl. apply lookup_alter_is_Some. by apply (Hlive n).
Qed.

(** A loop of calls through the handles of [l]: it returns, the objects are
    altered one handle after the other, the registry is not touched. *)
Lemma for_each_call (f : Criterion.t -> Criterion.t) (l : list (string * ptr))
    (st : t) :
  for_each l (fun criterion => call criterion.2 f) st =
  (Returns tt,
   {| store := foldl (fun objects criterion => alter f criterion.2 objects)
                 (store st) l;
      mCriteria := mCriteria st |}).
Proof.
  revert st. induction l as [| x l IH]; intros st; simpl.
  - by destruct st.
  - unfold mbind, M_bind. simpl. by rewrite IH.
Qed.

Lemma resetModifiedStatus_unfold (st : t) :
  resetModifiedStatus st =
  (Returns tt,
   {| store := foldl (fun objects criterion =>
                        alter Criterion.resetModifiedStatus criterion.2 objects)
                 (store st) (iteration (mCriteria st));
      mCriteria := mCriteria st |}).
Proof. apply for_each_call. Qed.

Lemma resetModifiedStatus_idempotent (c : Criterion.t) :
  Criterion.resetModifiedStatus (Criterion.resetModifiedStatus c) =
  Criterion.resetModifiedStatus c.
Proof. reflexivity. Qed.

(** The objects after the loop: reset where a handle of [l] points, as they
    were elsewhere. *)
Lemma lookup_reset_all (l : list (string * ptr)) (objects : gmap ptr Criterion.t)
    (p : ptr) :
  foldl (fun objects criterion =>
           alter Criterion.resetModifiedStatus criterion.2 objects) objects l !! p =
  if decide (p ∈ l.*2) then Criterion.resetModifiedStatus <$> objects !! p
  else objects !! p.
Proof.
  revert objects. induction l as [| [n q] l IH]; intros objects.
  - reflexivity.
  - change (foldl _ objects ((n, q) :: l)) with
      (foldl (fun objects criterion =>
                alter Criterion.resetModifiedStatus criterion.2 objects)
         (alter Criterion.resetModifiedStatus q objects) l).
    change (((n, q) :: l).*2) with (q :: l.*2).
    rewrite IH. destruct (decide (p = q)) as [-> | Hne].
    + rewrite lookup_alter_eq.
      rewrite (decide_True (P := q ∈ q :: l.*2)) by apply list_elem_of_here.
      case_decide; [| done].
      destruct (objects !! q); simpl; [| done].
      by rewrite resetModifiedStatus_idempotent.
    + rewrite lookup_alter_ne by done.
      destruct (decide (p ∈ l.*2)) as [Hin | Hin].
      * rewrite decide_True; [done | by apply list_elem_of_further].
      * rewrite decide_False; [done |].
        intros [? | ?]%elem_of_cons; contradiction.
Qed.

Lemma resetModifiedStatus_wf (st : t) : wf st -> wf (resetModifiedStatus st).2.
Proof.
  intros [Hlive Honce]. rewrite resetModifiedStatus_unfold.
  split; [| exact Honce].
  intros n r Hn. simpl. rewrite lookup_reset_all.
  destruct (Hlive n r Hn) as [c Hc]. rewrite Hc. case_decide; simpl; eauto.
Qed.

(** Dropping the returned value does not change the state left. *)
Lemma then_ret_state {A : Type} (m : M A) (st : t) :
  ((m ;; mret tt) st).2 = (m st).2.
Proof.
  unfold mbind, M_bind, mret, M_ret. by destruct (m st) as [[a | e] st'].
Qed.

Lemma serve_wf (r : request) (st : t) : wf st -> wf (serve r st).2.
Proof.
  intros Hwf. destruct r as [name | name | | name r]; simpl.
  - rewrite then_ret_state. by apply create_wf.
  - rewrite then_ret_state. by apply create_wf.
  - by apply resetModifiedStatus_wf.
  - unfold mbind, M_bind, getSelectionCriterion.
    rewrite getCriterionPointer_lookup.
    destruct (mCriteria st !! name); [by apply call_wf | exact Hwf].
Qed.

Lemma for_each_serve_wf (rs : list request) (st : t) :
  wf st -> wf (for_each rs serve st).2.
Proof.
  revert st. induction rs as [| r rs IH]; intros st Hwf; [exact Hwf |].
  simpl. unfold mbind, M_bind.
  pose proof (serve_wf r st Hwf) as Hr.
  destruct (serve r st) as [[[] | e] st'] eqn:E; simpl in *.
  - by apply IH.
  - exact Hr.
Qed.

(** Every state a new registry reaches is well formed. *)
Lemma run_wf (rs : list request) : wf (run rs).
Proof. apply for_each_serve_wf, Criteria_wf. Qed.

(** ** Bulk operations *)

(** C9. For every well-formed registry, one [resetModifiedStatus] returns
    (it does not throw), keeps the registry, and resets the modification
    counter of every registered criterion: afterwards [hasBeenModified] is
    false for each criterion of the registry. Each such criterion is the
    former one with its counter at 0, and objects the registry does not own
    are not touched. *)
Theorem resetModifiedStatus_clears_all (st : t) :
  wf st ->
  exists st',
    resetModifiedStatus st = (Returns tt, st') /\
    mCriteria st' = mCriteria st /\
    (forall name c', registered name st' = Some c' ->
       Criterion._uiNbModifications c' = 0%N /\
       Criterion.hasBeenModified c' = false) /\
    (forall name p, mCriteria st !! name = Some p ->
       exists c, store st !! p = Some c /\
         registered name st' = Some (Criterion.resetModifiedStatus c)) /\
    (forall p, (forall name, mCriteria st !! name <> Some p) ->
       store st' !! p = store st !! p).
Proof.
  intros [Hlive _]. eexists. split; [apply resetModifiedStatus_unfold |].
  split; [reflexivity |].
  assert (forall name p, mCriteria st !! name = Some p ->
            exists c, store st !! p = Some c /\
              registered name
                {| store := foldl (fun objects criterion =>
                     alter Criterion.resetModifiedStatus criterion.2 objects)
                     (store st) (iteration (mCriteria st));
                   mCriteria := mCriteria st |} =
              Some (Criterion.resetModifiedStatus c)) as Hreset.
  { intros name p Hp. destruct (Hlive name p Hp) as [c Hc].
    exists c. split; [exact Hc |].
    unfold registered. simpl. rewrite Hp. simpl. rewrite lookup_reset_all.
    rewrite decide_True by (apply elem_of_visited; eauto). by rewrite Hc. }
  split; [| split; [exact Hreset |]].
  - intros name c' Hc'.
    destruct (mCriteria st !! name) as [p |] eqn:Hp.
    + destruct (Hreset name p Hp) as (c & _ & Hr).
      rewrite Hr in Hc'. by injection Hc' as <-.
    + unfold registered in Hc'. simpl in Hc'. by rewrite Hp in Hc'.
  - intros p Hp. simpl. rewrite lookup_reset_all.
    rewrite decide_False; [done |].
    intros [name Hname]%elem_of_visited. by destruct (Hp name).
Qed.

Lemma resetModifiedStatus_clears_all_witness :
  let st := run [CreateExclusive "Mode";
                 OnCriterion "Mode" (Criterion.SetCriterionState 1);
                 CreateInclusive "Route";
                 OnCriterion "Route" (Criterion.SetCriterionState 5)] in
  (Criterion.hasBeenModified <$> registered "Mode" st = Some true /\
   Criterion.hasBeenModified <$> registered "Route" st = Some true) /\
  exists st',
    resetModifiedStatus st = (Returns tt, st') /\
    mCriteria st' = mCriteria st /\
    (forall name c', registered name st' = Some c' ->
       Criterion._uiNbModifications c' = 0%N /\
       Criterion.hasBeenModified c' = false) /\
    (forall name p, mCriteria st !! name = Some p ->
       exists c, store st !! p = Some c /\
         registered name st' = Some (Criterion.resetModifiedStatus c)) /\
    (forall p, (forall name, mCriteria st !! name <> Some p) ->
       store st' !! p = store st !! p).
Proof.
  split; [by vm_compute |].
  apply resetModifiedStatus_clears_all.
  refine (bool_decide_unpack _ _). vm_compute. exact I.
Defined.

Section Listing.

Variable getFormattedDescription : bool -> bool -> Criterion.t -> string.

(** The loop pushes the descriptions at the back, in the order of the
    iteration. *)
Lemma foldl_push_back {X : Type} (g : X -> option string) (l : list X)
    (results : list string) :
  foldl (fun results x =>
           match g x with
           | Some description => results ++ [description]
           | None => results
           end) results l =
  results ++ omap g l.
Proof.
  revert results. induction l as [| x l IH]; intros results; simpl.
  - by rewrite app_nil_r.
  - rewrite IH. destruct (g x); [by rewrite <- app_assoc | done].
Qed.

Lemma describe_live (withTypeInfo humanReadable : bool) (st : t)
    (l : list (string * ptr)) :
  Forall (fun criterion => is_Some (store st !! criterion.2)) l ->
  Forall2 (fun criterion description =>
             exists c, store st !! criterion.2 = Some c /\
               description = getFormattedDescription withTypeInfo humanReadable c)
    l (omap (fun criterion =>
               describe getFormattedDescription withTypeInfo humanReadable st
                 criterion.2) l).
Proof.
  induction 1 as [| x l [c Hc] _ IH]; simpl; [constructor |].
  unfold describe at 1. rewrite Hc. simpl. constructor; [eauto | exact IH].
Qed.

(** C10. For every well-formed registry, [listSelectionCriteria] returns
    (it does not throw) and leaves the registry and its criteria as they
    are. The caller's list is extended at the back by as many descriptions
    as there are registered criteria; the i-th of them is the formatted
    description of the i-th criterion of the iteration over the registry,
    which goes by strictly increasing name, and every registered criterion
    is at exactly one place of that iteration: none is left out, none is
    listed twice. *)
Theorem listSelectionCriteria_one_per_criterion (st : t)
    (results : list string) (withTypeInfo humanReadable : bool) :
  wf st ->
  exists descriptions,
    listSelectionCriteria getFormattedDescription results withTypeInfo
      humanReadable st = (Returns (results ++ descriptions), st) /\
    length descriptions = size (mCriteria st) /\
    Forall2 (fun criterion description =>
               exists c, store st !! criterion.2 = Some c /\
                 description =
                   getFormattedDescription withTypeInfo humanReadable c)
      (iteration (mCriteria st)) descriptions /\
    StronglySorted key_lt (iteration (mCriteria st)) /\
    (forall name p, mCriteria st !! name = Some p ->
       exists i, iteration (mCriteria st) !! i = Some (name, p) /\
         forall j, iteration (mCriteria st) !! j = Some (name, p) -> j = i).
Proof.
  intros [Hlive _].
  assert (Forall (fun criterion : string * ptr =>
                    is_Some (store st !! criterion.2))
            (iteration (mCriteria st))) as Hall.
  { apply Forall_forall. intros [n p] Hin%elem_of_iteration.
    exact (Hlive n p Hin). }
  pose proof (describe_live withTypeInfo humanReadable st _ Hall) as Hdesc.
  eexists. split; [| split; [| split; [exact Hdesc | split]]].
  - unfold listSelectionCriteria. by rewrite foldl_push_back.
  - rewrite <- (Forall2_length _ _ _ Hdesc). apply length_iteration.
  - apply iteration_sorted.
  - intros name p Hp. apply elem_of_iteration, list_elem_of_lookup in Hp.
    destruct Hp as [i Hi]. exists i. split; [exact Hi |].
    intros j Hj. exact (NoDup_lookup _ _ _ _ (NoDup_iteration _) Hj Hi).
Qed.

End Listing.

Lemma listSelectionCriteria_one_per_criterion_witness :
  let st := run [CreateInclusive "c"; CreateExclusive "a"; CreateInclusive "d";
                 CreateExclusive "b"; CreateInclusive "a"] in
  let format := fun (withTypeInfo humanReadable : bool) (c : Criterion.t) =>
                  Criterion.getCriterionName c in
  listSelectionCriteria format ["Criteria:"] true false st =
    (Returns ["Criteria:"; "a"; "b"; "c"; "d"], st) /\
  exists descriptions,
    listSelectionCriteria format ["Criteria:"] true false st =
      (Returns (["Criteria:"] ++ descriptions), st) /\
    length descriptions = size (mCriteria st) /\
    Forall2 (fun criterion description =>
               exists c, store st !! criterion.2 = Some c /\
                 description = format true false c)
      (iteration (mCriteria st)) descriptions /\
    StronglySorted key_lt (iteration (mCriteria st)) /\
    (forall name p, mCriteria st !! name = Some p ->
       exists i, iteration (mCriteria st) !! i = Some (name, p) /\
         forall j, iteration (mCriteria st) !! j = Some (name, p) -> j = i).
Proof.
  split; [by vm_compute |].
  apply listSelectionCriteria_one_per_criterion.
  refine (bool_decide_unpack _ _). vm_compute. exact I.
Defined.

(** The handle of a creation can be of the other kind than the one asked. *)
Example create_returns_other_kind :
  let st := run [CreateExclusive "Mode"] in
  (createInclusiveCriterion "Mode" st).1 = Returns (mCriteria st !! "Mode") /\
  Criterion.isInclusive <$> registered "Mode" st = Some false.
Proof. vm_compute. split; reflexivity. Qed.

End CriteriaFacts.

(** * Laws of the registry *)

Module CriteriaLaws.
Import Criteria IterationFacts CriteriaFacts.

(** ** What a request leaves *)

(** The state after a creation. *)
Lemma create_state (obj : Criterion.t) (name : string) (st : t) :
  ((p ← new obj; emplace name p ;; getCriterionPointer name) st).2 =
  match mCriteria st !! name with
  | Some _ => st
  | None =>
      {| store := <[fresh (dom (store st)) := obj]> (store st);
         mCriteria := <[name := fresh (dom (store st))]> (mCriteria st) |}
  end.
Proof. rewrite create_unfold. simpl. by destruct (mCriteria st !! name). Qed.

Lemma create_returns (obj : Criterion.t) (name : string) (st : t) :
  exists p, ((p ← new obj; emplace name p ;; getCriterionPointer name) st).1 =
            Returns (Some p).
Proof.
  rewrite create_unfold. simpl. destruct (mCriteria st !! name); simpl; eauto.
Qed.

Lemma then_ret_returns {A : Type} (m : M A) (st : t) (a : A) :
  (m st).1 = Returns a -> ((m ;; mret tt) st).1 = Returns tt.
Proof.
  unfold mbind, M_bind, mret, M_ret.
  destruct (m st) as [[a' | e] st']; [done | discriminate].
Qed.

(** No request lets an exception out. *)
Lemma serve_returns (r : request) (st : t) : (serve r st).1 = Returns tt.
Proof.
  destruct r as [name | name | | name r]; simpl.
  - destruct (create_returns (Criterion.Criterion name) name st) as [p Hp].
    exact (then_ret_returns _ _ _ Hp).
  - destruct (create_returns (Criterion.InclusiveCriterion name) name st)
      as [p Hp].
    exact (then_ret_returns _ _ _ Hp).
  - by rewrite resetModifiedStatus_unfold.
  - unfold mbind, M_bind, getSelectionCriterion.
    rewrite getCriterionPointer_lookup. by destruct (mCriteria st !! name).
Qed.

(** The requests are served one after the other. *)
Lemma for_each_serve_cons (r : request) (rs : list request) (st : t) :
  for_each (r :: rs) serve st = for_each rs serve (serve r st).2.
Proof.
  simpl. unfold mbind, M_bind. pose proof (serve_returns r st) as Hr.
  destruct (serve r st) as [[[] | e] st']; [done | discriminate].
Qed.

Lemma for_each_serve_returns (rs : list request) (st : t) :
  (for_each rs serve st).1 = Returns tt.
Proof.
  revert st. induction rs as [| r rs IH]; intros st; [done |].
  rewrite for_each_serve_cons. apply IH.
Qed.

Lemma serve_state (r : request) (st : t) :
  (serve r st).2 =
  match r with
  | CreateExclusive name => (createExclusiveCriterion name st).2
  | CreateInclusive name => (createInclusiveCriterion name st).2
  | ResetModified => (resetModifiedStatus st).2
  | OnCriterion name r =>
      match mCriteria st !! name with
      | Some p => (call p (Criterion.serve r) st).2
      | None => st
      end
  end.
Proof.
  destruct r as [name | name | | name r]; simpl;
    [apply then_ret_state | apply then_ret_state | done |].
  unfold mbind, M_bind, getSelectionCriterion.
  rewrite getCriterionPointer_lookup. by destruct (mCriteria st !! name).
Qed.

(** ** Handles stay *)

Lemma create_keeps_handle (obj : Criterion.t) (name : string) (st : t)
    (name' : string) (p : ptr) :
  mCriteria st !! name' = Some p ->
  mCriteria ((q ← new obj; emplace name q ;; getCriterionPointer name) st).2
    !! name' = Some p.
Proof.
  intros Hp. rewrite create_state.
  destruct (mCriteria st !! name) as [q |] eqn:Hname; [exact Hp |].
  simpl. rewrite lookup_insert_ne; [exact Hp | congruence].
Qed.

Lemma serve_keeps_handle (r : request) (st : t) (name : string) (p : ptr) :
  mCriteria st !! name = Some p -> mCriteria (serve r st).2 !! name = Some p.
Proof.
  intros Hp. rewrite serve_state. destruct r as [n | n | | n r].
  - by apply create_keeps_handle.
  - by apply create_keeps_handle.
  - by rewrite resetModifiedStatus_unfold.
  - by destruct (mCriteria st !! n).
Qed.

(** X1. A handle stays valid: whatever requests a well-formed registry
    serves afterwards (creations, also under the same name, resets, calls on
    criteria), a name that is registered keeps its handle, the lookup by
    that name returns it, and the handle still points to a live object. *)
Theorem handle_stays_valid (rs : list request) (st : t) (name : string)
    (p : ptr) :
  wf st ->
  mCriteria st !! name = Some p ->
  let st' := (for_each rs serve st).2 in
  mCriteria st' !! name = Some p /\
  getSelectionCriterion name st' = (Returns (Some p), st') /\
  is_Some (store st' !! p).
Proof.
  intros Hwf Hp st'. subst st'.
  assert (mCriteria (for_each rs serve st).2 !! name = Some p) as Hp'.
  { clear Hwf. revert st Hp. induction rs as [| r rs IH]; intros st Hp;
      [exact Hp |].
    rewrite for_each_serve_cons. by apply IH, serve_keeps_handle. }
  split; [exact Hp' |]. split.
  - unfold getSelectionCriterion. by rewrite getCriterionPointer_lookup, Hp'.
  - destruct (for_each_serve_wf rs st Hwf) as [Hlive _].
    exact (Hlive name p Hp').
Qed.

Lemma handle_stays_valid_witness :
  let st := run [CreateExclusive "Mode"] in
  let st' := (for_each [CreateInclusive "Mode"; CreateInclusive "Route";
                        ResetModified;
                        OnCriterion "Mode" (Criterion.SetCriterionState 3)]
                serve st).2 in
  mCriteria st' !! "Mode" = Some 1%positive /\
  getSelectionCriterion "Mode" st' = (Returns (Some 1%positive), st') /\
  is_Some (store st' !! 1%positive).
Proof.
  apply (handle_stays_valid _ (run [CreateExclusive "Mode"])).
  - refine (bool_decide_unpack _ _). vm_compute. exact I.
  - vm_compute. reflexivity.
Defined.

(** ** Ownership *)

Lemma handles_once (st : t) (n1 n2 : string) (p : ptr) :
  owns_once st ->
  mCriteria st !! n1 = Some p -> mCriteria st !! n2 = Some p -> n1 = n2.
Proof.
  unfold owns_once. intros Honce H1 H2.
  apply elem_of_map_to_list, list_elem_of_lookup in H1 as [i Hi].
  apply elem_of_map_to_list, list_elem_of_lookup in H2 as [j Hj].
  assert (i = j) as ->.
  { apply (NoDup_lookup _ i j p Honce); rewrite list_lookup_fmap.
    - by rewrite Hi.
    - by rewrite Hj. }
  congruence.
Qed.

(** X2. In every state a new registry reaches, each registered name leads
    to a live criterion, and no criterion is registered under two names. *)
Theorem reachable_owns_live_once (rs : list request) :
  (forall name p, mCriteria (run rs) !! name = Some p ->
     exists c, store (run rs) !! p = Some c /\
               registered name (run rs) = Some c) /\
  (forall n1 n2 p,
     mCriteria (run rs) !! n1 = Some p -> mCriteria (run rs) !! n2 = Some p ->
     n1 = n2).
Proof.
  destruct (run_wf rs) as [Hlive Honce]. split.
  - intros name p Hp. destruct (Hlive name p Hp) as [c Hc].
    exists c. split; [exact Hc |]. unfold registered. by rewrite Hp.
  - intros n1 n2 p. by apply handles_once.
Qed.

(** The free store holds nothing but what the registry owns. *)
Lemma create_no_garbage (obj : Criterion.t) (name : string) (st : t) :
  (forall p, is_Some (store st !! p) -> exists n, mCriteria st !! n = Some p) ->
  let st' := ((q ← new obj; emplace name q ;; getCriterionPointer name) st).2 in
  forall p, is_Some (store st' !! p) -> exists n, mCriteria st' !! n = Some p.
Proof.
  intros Hst st'. subst st'. rewrite create_state.
  destruct (mCriteria st !! name) as [q |] eqn:Hname; [exact Hst |].
  intros p. simpl. destruct (decide (p = fresh (dom (store st)))) as [-> | Hne].
  - intros _. exists name. apply lookup_insert_eq.
  - rewrite lookup_insert_ne by done. intros [n Hn]%Hst.
    exists n. rewrite lookup_insert_ne; [exact Hn | congruence].
Qed.

Lemma serve_no_garbage (r : request) (st : t) :
  (forall p, is_Some (store st !! p) -> exists n, mCriteria st !! n = Some p) ->
  forall p, is_Some (store (serve r st).2 !! p) ->
            exists n, mCriteria (serve r st).2 !! n = Some p.
Proof.
  intros Hst. rewrite serve_state. destruct r as [n | n | | n r].
  - by apply create_no_garbage.
  - by apply create_no_garbage.
  - rewrite resetModifiedStatus_unfold. simpl. intros p.
    rewrite lookup_reset_all. case_decide; [rewrite fmap_is_Some |]; apply Hst.
  - destruct (mCriteria st !! n) as [q |]; [| exact Hst].
    simpl. intros p. rewrite lookup_alter_is_Some. apply Hst.
Qed.

(** X3. The registry does not leak: in every state a new registry reaches,
    the objects of the free store are exactly the criteria registered under
    some name. The criterion constructed for a name that is taken is
    destroyed with the wrapper that was not inserted. *)
Theorem reachable_no_leak (rs : list request) (p : ptr) :
  is_Some (store (run rs) !! p) <-> exists name, mCriteria (run rs) !! name = Some p.
Proof.
  split.
  - unfold run. revert p.
    assert (forall st,
              (forall p, is_Some (store st !! p) ->
                         exists n, mCriteria st !! n = Some p) ->
              forall p, is_Some (store (for_each rs serve st).2 !! p) ->
                        exists n, mCriteria (for_each rs serve st).2 !! n = Some p)
      as Hall.
    { induction rs as [| r rs IH]; intros st Hst; [exact Hst |].
      rewrite for_each_serve_cons. by apply IH, serve_no_garbage. }
    apply Hall. intros p. simpl. rewrite lookup_empty. by intros [? ?].
  - intros [name Hp]. destruct (run_wf rs) as [Hlive _]. exact (Hlive name p Hp).
Qed.

(** ** Creation and lookup *)

(** X4. What a creation returns is what the lookup returns from then on,
    and creating again under the same name, with either kind, changes
    nothing and returns the same handle: the first creation wins. *)
Theorem create_then_lookup_and_create_again (st : t) (name : string) :
  (let r := createExclusiveCriterion name st in
   getSelectionCriterion name r.2 = r /\
   createExclusiveCriterion name r.2 = r /\
   createInclusiveCriterion name r.2 = r) /\
  (let r := createInclusiveCriterion name st in
   getSelectionCriterion name r.2 = r /\
   createExclusiveCriterion name r.2 = r /\
   createInclusiveCriterion name r.2 = r).
Proof.
  assert (forall obj,
            let r := (p ← new obj; emplace name p ;; getCriterionPointer name) st in
            exists h, r = (Returns (Some h), r.2) /\ mCriteria r.2 !! name = Some h)
    as Hcreate.
  { intros obj r. subst r. rewrite create_unfold. simpl.
    destruct (mCriteria st !! name) as [q |] eqn:Hname; simpl; eauto.
    eexists. split; [reflexivity |]. apply lookup_insert_eq. }
  split.
  - intros r. destruct (Hcreate (Criterion.Criterion name)) as (h & Hr & Hh).
    fold (createExclusiveCriterion name st) in Hr, Hh. fold r in Hr, Hh.
    unfold getSelectionCriterion, createExclusiveCriterion,
      createInclusiveCriterion.
    rewrite getCriterionPointer_lookup, !create_unfold. simpl. rewrite Hh.
    by rewrite <- Hr.
  - intros r.
    destruct (Hcreate (Criterion.InclusiveCriterion name)) as (h & Hr & Hh).
    fold (createInclusiveCriterion name st) in Hr, Hh. fold r in Hr, Hh.
    unfold getSelectionCriterion, createExclusiveCriterion,
      createInclusiveCriterion.
    rewrite getCriterionPointer_lookup, !create_unfold. simpl. rewrite Hh.
    by rewrite <- Hr.
Qed.

(** The criterion under a name after a creation: the one that was there,
    or else the one just constructed; the other names are not concerned. *)
Lemma registered_after_create (obj : Criterion.t) (name : string) (st : t)
    (name' : string) :
  owns_live st ->
  registered name'
    ((p ← new obj; emplace name p ;; getCriterionPointer name) st).2 =
  if decide (name' = name)
  then match mCriteria st !! name with
       | Some _ => registered name st
       | None => Some obj
       end
  else registered name' st.
Proof.
  intros Hlive. rewrite create_state.
  destruct (mCriteria st !! name) as [q |] eqn:Hname.
  - case_decide; by subst.
  - unfold registered. simpl. case_decide as Heq.
    + subst name'. rewrite lookup_insert_eq. simpl. apply lookup_insert_eq.
    + rewrite lookup_insert_ne by done.
      destruct (mCriteria st !! name') as [q |] eqn:Hq; simpl; [| done].
      destruct (Hlive name' q Hq) as [c Hc].
      rewrite lookup_insert_ne; [done |].
      intros <-. rewrite store_fresh in Hc. discriminate.
Qed.

(** X5. A creation concerns one name only: in a well-formed registry, the
    lookup of every other name and the criterion registered under it are
    what they were, and no live object is changed. *)
Theorem create_leaves_others (st : t) (name name' : string) :
  wf st ->
  name' <> name ->
  (let st' := (createExclusiveCriterion name st).2 in
   getSelectionCriterion name' st' = (Returns (mCriteria st !! name'), st') /\
   registered name' st' = registered name' st /\
   forall q, is_Some (store st !! q) -> store st' !! q = store st !! q) /\
  (let st' := (createInclusiveCriterion name st).2 in
   getSelectionCriterion name' st' = (Returns (mCriteria st !! name'), st') /\
   registered name' st' = registered name' st /\
   forall q, is_Some (store st !! q) -> store st' !! q = store st !! q).
Proof.
  intros [Hlive _] Hne.
  assert (forall obj,
            let st' := ((p ← new obj; emplace name p ;;
                         getCriterionPointer name) st).2 in
            getSelectionCriterion name' st' =
              (Returns (mCriteria st !! name'), st') /\
            registered name' st' = registered name' st /\
            forall q, is_Some (store st !! q) -> store st' !! q = store st !! q)
    as Hcreate.
  { intros obj st'. split; [| split].
    - unfold getSelectionCriterion. rewrite getCriterionPointer_lookup.
      subst st'. rewrite create_state.
      destruct (mCriteria st !! name); [done |].
      simpl. by rewrite lookup_insert_ne.
    - subst st'. rewrite registered_after_create by done.
      by rewrite decide_False.
    - subst st'. rewrite create_state.
      destruct (mCriteria st !! name); [done |].
      intros q [c Hc]. simpl. rewrite lookup_insert_ne; [done |].
      intros <-. rewrite store_fresh in Hc. discriminate. }
  split; apply Hcreate.
Qed.

Lemma create_leaves_others_witness :
  let st := run [CreateExclusive "Mode"] in
  (let st' := (createExclusiveCriterion "Route" st).2 in
   getSelectionCriterion "Mode" st' = (Returns (mCriteria st !! "Mode"), st') /\
   registered "Mode" st' = registered "Mode" st /\
   forall q, is_Some (store st !! q) -> store st' !! q = store st !! q) /\
  (let st' := (createInclusiveCriterion "Route" st).2 in
   getSelectionCriterion "Mode" st' = (Returns (mCriteria st !! "Mode"), st') /\
   registered "Mode" st' = registered "Mode" st /\
   forall q, is_Some (store st !! q) -> store st' !! q = store st !! q).
Proof.
  apply (create_leaves_others (run [CreateExclusive "Mode"])).
  - refine (bool_decide_unpack _ _). vm_compute. exact I.
  - discriminate.
Defined.

(** ** The first creation wins *)

Lemma registered_after_reset (name : string) (st : t) :
  owns_live st ->
  registered name (resetModifiedStatus st).2 =
  Criterion.resetModifiedStatus <$> registered name st.
Proof.
  intros Hlive. rewrite resetModifiedStatus_unfold. unfold registered. simpl.
  destruct (mCriteria st !! name) as [q |] eqn:Hq; simpl; [| done].
  rewrite lookup_reset_all. rewrite decide_True; [done |].
  apply elem_of_visited. eauto.
Qed.

(** The class of the criterion under a name after one request. *)
Lemma serve_class (name : string) (r : request) (st : t) :
  wf st ->
  Criterion.vptr <$> registered name (serve r st).2 =
  match Criterion.vptr <$> registered name st with
  | Some cls => Some cls
  | None => creates name r
  end.
Proof.
  intros [Hlive _]. rewrite serve_state.
  assert (forall obj n,
            Criterion.vptr <$>
              registered name
                ((p ← new obj; emplace n p ;; getCriterionPointer n) st).2 =
            match Criterion.vptr <$> registered name st with
            | Some cls => Some cls
            | None => if decide (n = name) then Some (Criterion.vptr obj)
                      else None
            end) as Hcreate.
  { intros obj n. rewrite registered_after_create by done.
    destruct (decide (name = n)) as [-> | Hne].
    - rewrite decide_True by done.
      destruct (mCriteria st !! n) as [q |] eqn:Hq.
      + unfold registered. rewrite Hq. simpl.
        destruct (Hlive n q Hq) as [c ->]. done.
      + unfold registered. rewrite Hq. done.
    - rewrite decide_False by done.
      by destruct (Criterion.vptr <$> registered name st). }
  destruct r as [n | n | | n r]; simpl.
  - apply Hcreate.
  - apply Hcreate.
  - rewrite registered_after_reset by done.
    by destruct (registered name st).
  - destruct (mCriteria st !! n) as [q |] eqn:Hq;
      [| by destruct (Criterion.vptr <$> registered name st)].
    unfold registered, call. simpl.
    destruct (mCriteria st !! name) as [q' |]; simpl; [| done].
    destruct (decide (q' = q)) as [-> | Hne].
    + rewrite lookup_alter_eq. destruct (store st !! q); simpl; [| done].
      by rewrite CriterionFacts.serve_vptr.
    + rewrite lookup_alter_ne by done. by destruct (store st !! q').
Qed.

Lemma for_each_serve_class (name : string) (rs : list request) (st : t) :
  wf st ->
  Criterion.vptr <$> registered name (for_each rs serve st).2 =
  match Criterion.vptr <$> registered name st with
  | Some cls => Some cls
  | None => firstCreation name rs
  end.
Proof.
  revert st. induction rs as [| r rs IH]; intros st Hwf.
  - simpl. by destruct (Criterion.vptr <$> registered name st).
  - rewrite for_each_serve_cons, IH by (by apply serve_wf).
    rewrite serve_class by done. simpl.
    destruct (Criterion.vptr <$> registered name st); [done |].
    by destruct (creates name r).
Qed.

(** X6. The registry a sequence of requests leaves holds a criterion under a
    name iff one of the requests created one under that name, and the class
    of that criterion is the one the first such request asked for: later
    creations under the name, of either kind, resets and calls on criteria
    do not change it. *)
Theorem first_creation_wins (rs : list request) (name : string) :
  Criterion.vptr <$> registered name (run rs) = firstCreation name rs /\
  (mCriteria (run rs) !! name = None <-> firstCreation name rs = None).
Proof.
  assert (Criterion.vptr <$> registered name (run rs) = firstCreation name rs)
    as Hclass.
  { unfold run. rewrite for_each_serve_class by apply Criteria_wf.
    unfold registered. simpl. by rewrite lookup_empty. }
  split; [exact Hclass |]. rewrite <- Hclass.
  destruct (run_wf rs) as [Hlive _]. unfold registered.
  destruct (mCriteria (run rs) !! name) as [q |] eqn:Hq; simpl.
  - destruct (Hlive name q Hq) as [c ->]. simpl. split; discriminate.
  - done.
Qed.

(** ** Listing *)

Section Listing.

Variable getFormattedDescription : bool -> bool -> Criterion.t -> string.

(** The listing, in closed form. *)
Lemma listSelectionCriteria_omap (results : list string)
    (withTypeInfo humanReadable : bool) (st : t) :
  listSelectionCriteria getFormattedDescription results withTypeInfo
    humanReadable st =
  (Returns (results ++
            omap (fun criterion : string * ptr =>
                    describe getFormattedDescription withTypeInfo humanReadable
                      st criterion.2)
              (iteration (mCriteria st))),
   st).
Proof. unfold listSelectionCriteria. by rewrite foldl_push_back. Qed.

Lemma length_omap_le {X Y : Type} (g : X -> option Y) (l : list X) :
  (length (omap g l) <= length l)%nat.
Proof.
  induction l as [| x l IH]; csimpl; [done |].
  destruct (g x); csimpl; lia.
Qed.

(** X7. [listSelectionCriteria] does not clear the caller's list: what it
    returns is that list followed by what it returns on an empty list, which
    does not depend on the caller's list and has at most one entry per
    registered criterion (none for a registry without criteria); listing a
    second time into the same list puts the descriptions twice. The registry
    is never changed. *)
Theorem listSelectionCriteria_appends (st : t) (results : list string)
    (withTypeInfo humanReadable : bool) :
  exists descriptions,
    listSelectionCriteria getFormattedDescription [] withTypeInfo
      humanReadable st = (Returns descriptions, st) /\
    listSelectionCriteria getFormattedDescription results withTypeInfo
      humanReadable st = (Returns (results ++ descriptions), st) /\
    listSelectionCriteria getFormattedDescription (results ++ descriptions)
      withTypeInfo humanReadable st =
      (Returns (results ++ descriptions ++ descriptions), st) /\
    (length descriptions <= size (mCriteria st))%nat /\
    (mCriteria st = ∅ -> descriptions = []).
Proof.
  eexists. rewrite !listSelectionCriteria_omap.
  split; [reflexivity |]. split; [reflexivity |].
  split; [by rewrite <- app_assoc |]. split.
  - rewrite <- length_iteration. apply length_omap_le.
  - intros ->. by rewrite iteration_empty.
Qed.

Lemma omap_describe_create (withTypeInfo humanReadable : bool)
    (obj : Criterion.t) (st : t) (m' : gmap string ptr) (l : list (string * ptr)) :
  Forall (fun criterion => is_Some (store st !! criterion.2)) l ->
  omap (fun criterion : string * ptr =>
          describe getFormattedDescription withTypeInfo humanReadable
            {| store := <[fresh (dom (store st)) := obj]> (store st);
               mCriteria := m' |} criterion.2) l =
  omap (fun criterion : string * ptr =>
          describe getFormattedDescription withTypeInfo humanReadable st
            criterion.2) l.
Proof.
  induction 1 as [| x l [c Hc] _ IH]; [done |].
  csimpl. rewrite IH.
  assert (describe getFormattedDescription withTypeInfo humanReadable
            {| store := <[fresh (dom (store st)) := obj]> (store st);
               mCriteria := m' |} x.2 =
          describe getFormattedDescription withTypeInfo humanReadable st x.2)
    as ->; [| done].
  unfold describe. simpl. rewrite lookup_insert_ne; [done |].
  intros Heq. rewrite <- Heq, store_fresh in Hc. discriminate.
Qed.

Lemma listing_after_create (withTypeInfo humanReadable : bool)
    (obj : Criterion.t) (name : string) (st : t) :
  owns_live st ->
  mCriteria st !! name = None ->
  let st' := ((p ← new obj; emplace name p ;; getCriterionPointer name) st).2 in
  forall before,
    listSelectionCriteria getFormattedDescription [] withTypeInfo
      humanReadable st = (Returns before, st) ->
    exists after,
      listSelectionCriteria getFormattedDescription [] withTypeInfo
        humanReadable st' = (Returns after, st') /\
      after ≡ₚ getFormattedDescription withTypeInfo humanReadable obj :: before.
Proof.
  intros Hlive Hname st' before. subst st'.
  rewrite create_state, Hname, !listSelectionCriteria_omap. simpl.
  intros [= <-]. eexists. split; [reflexivity |].
  rewrite (iteration_insert _ _ _ Hname). simpl.
  unfold describe at 1. simpl. rewrite lookup_insert_eq. simpl.
  rewrite omap_describe_create; [done |].
  apply Forall_forall. intros [n q] Hin%elem_of_iteration.
  exact (Hlive n q Hin).
Qed.

(** X8. In a well-formed registry, creating a criterion under a name that is
    not registered adds exactly the description of the new criterion to the
    listing: the listing afterwards is, up to the order of the iteration,
    the description of the criterion just constructed together with the
    former listing. *)
Theorem listSelectionCriteria_after_creation (st : t) (name : string)
    (withTypeInfo humanReadable : bool) :
  wf st ->
  mCriteria st !! name = None ->
  exists before,
    listSelectionCriteria getFormattedDescription [] withTypeInfo
      humanReadable st = (Returns before, st) /\
    (let st' := (createExclusiveCriterion name st).2 in
     exists after,
       listSelectionCriteria getFormattedDescription [] withTypeInfo
         humanReadable st' = (Returns after, st') /\
       after ≡ₚ getFormattedDescription withTypeInfo humanReadable
                  (Criterion.Criterion name) :: before) /\
    (let st' := (createInclusiveCriterion name st).2 in
     exists after,
       listSelectionCriteria getFormattedDescription [] withTypeInfo
         humanReadable st' = (Returns after, st') /\
       after ≡ₚ getFormattedDescription withTypeInfo humanReadable
                  (Criterion.InclusiveCriterion name) :: before).
Proof.
  intros [Hlive _] Hname. eexists.
  split; [apply listSelectionCriteria_omap |].
  split; intros st'; eapply listing_after_create; try done;
    apply listSelectionCriteria_omap.
Qed.

End Listing.

Lemma listSelectionCriteria_after_creation_witness :
  let st := run [CreateInclusive "Route"] in
  let format := fun (withTypeInfo humanReadable : bool) (c : Criterion.t) =>
                  if Criterion.isInclusive c
                  then String.append (Criterion.getCriterionName c) " (inclusive)"
                  else Criterion.getCriterionName c in
  exists before,
    listSelectionCriteria format [] true true st = (Returns before, st) /\
    (let st' := (createExclusiveCriterion "Mode" st).2 in
     exists after,
       listSelectionCriteria format [] true true st' = (Returns after, st') /\
       after ≡ₚ format true true (Criterion.Criterion "Mode") :: before) /\
    (let st' := (createInclusiveCriterion "Mode" st).2 in
     exists after,
       listSelectionCriteria format [] true true st' = (Returns after, st') /\
       after ≡ₚ format true true (Criterion.InclusiveCriterion "Mode") :: before).
Proof.
  apply listSelectionCriteria_after_creation.
  - refine (bool_decide_unpack _ _). vm_compute. exact I.
  - vm_compute. reflexivity.
Defined.

(** ** XML export *)

Section XmlExport.

Variable CXmlSerializingContext : Type.
Variable Criterion_toXml :
  Criterion.t -> CXmlElement -> CXmlSerializingContext ->
  CXmlElement * CXmlSerializingContext.

(** The loop of [toXml] keeps the element and its children and puts one
    child per turn behind them. *)
Lemma toXml_loop (st : t) (l : list (string * ptr)) (xmlElement : CXmlElement)
    (serializingContext : CXmlSerializingContext) :
  exists added serializingContext',
    foldl (fun (document : CXmlElement * CXmlSerializingContext)
               (criterion : string * ptr) =>
             let exported :=
               exportChild CXmlSerializingContext Criterion_toXml st
                 document.2 criterion.2 in
             (withChild document.1 exported.1, exported.2))
      (xmlElement, serializingContext) l =
    (XmlElement (xmlType xmlElement) (xmlAttributes xmlElement)
       (xmlChildren xmlElement ++ added), serializingContext') /\
    Forall2 (fun criterion child =>
               exists context,
                 child = (exportChild CXmlSerializingContext Criterion_toXml st
                            context criterion.2).1)
      l added.
Proof.
  revert xmlElement serializingContext.
  set (turn := fun (document : CXmlElement * CXmlSerializingContext)
                   (criterion : string * ptr) =>
                 let exported :=
                   exportChild CXmlSerializingContext Criterion_toXml st
                     document.2 criterion.2 in
                 (withChild document.1 exported.1, exported.2)).
  induction l as [| x l IH]; intros xmlElement serializingContext.
  - exists [], serializingContext. split; [| constructor].
    simpl. rewrite app_nil_r. by destruct xmlElement.
  - change (foldl turn (xmlElement, serializingContext) (x :: l))
      with (foldl turn (turn (xmlElement, serializingContext) x) l).
    destruct (turn (xmlElement, serializingContext) x) as [e1 c1] eqn:Hturn.
    destruct (IH e1 c1) as (added & context' & Hfold & Hall).
    unfold turn in Hturn. simpl in Hturn. injection Hturn as <- <-.
    eexists (_ :: added), context'. split.
    + rewrite Hfold. simpl. by rewrite <- app_assoc.
    + constructor; [eauto | exact Hall].
Qed.

(** X9. For every well-formed registry, [toXml] returns and leaves the
    registry as it is. The element keeps its type, its attributes and the
    children it had, and gets behind them one child per registered
    criterion, in the order of the iteration over the registry, which goes
    by strictly increasing name (the order of the listing): the i-th new
    child is the "SelectionCriterion" element that the i-th criterion filled
    in. *)
Theorem toXml_one_child_per_criterion (st : t) (xmlElement : CXmlElement)
    (serializingContext : CXmlSerializingContext) :
  wf st ->
  exists added serializingContext',
    toXml CXmlSerializingContext Criterion_toXml xmlElement serializingContext
      st =
    (Returns (XmlElement (xmlType xmlElement) (xmlAttributes xmlElement)
                (xmlChildren xmlElement ++ added), serializingContext'), st) /\
    length added = size (mCriteria st) /\
    StronglySorted key_lt (iteration (mCriteria st)) /\
    Forall2 (fun criterion child =>
               exists c context,
                 store st !! criterion.2 = Some c /\
                 child = (Criterion_toXml c (newChild "SelectionCriterion")
                            context).1)
      (iteration (mCriteria st)) added.
Proof.
  intros [Hlive _].
  destruct (toXml_loop st (iteration (mCriteria st)) xmlElement
              serializingContext) as (added & context' & Hfold & Hall).
  exists added, context'. split; [| split; [| split]].
  - unfold toXml. do 2 f_equal. exact Hfold.
  - rewrite <- (Forall2_length _ _ _ Hall). apply length_iteration.
  - apply iteration_sorted.
  - clear Hfold.
    assert (Forall (fun criterion : string * ptr =>
                      is_Some (store st !! criterion.2))
              (iteration (mCriteria st))) as Hobjects.
    { apply Forall_forall. intros [n p] Hin%elem_of_iteration.
      exact (Hlive n p Hin). }
    induction Hall as [| x child l added [context ->] _ IH]; [constructor |].
    apply Forall_cons in Hobjects as [[c Hc] Hobjects].
    constructor; [| by apply IH].
    exists c, context. split; [exact Hc |].
    unfold exportChild. by rewrite Hc.
Qed.

End XmlExport.

Lemma toXml_one_child_per_criterion_witness :
  let st := run [CreateInclusive "c"; CreateExclusive "a"; CreateInclusive "d";
                 CreateExclusive "b"] in
  let export := fun (c : Criterion.t) (e : CXmlElement) (visited : list string) =>
                  (XmlElement (xmlType e)
                     [("Name", Criterion.getCriterionName c)] [],
                   visited ++ [Criterion.getCriterionName c]) in
  let root := XmlElement "Criteria" [("Version", "1")] [newChild "Header"] in
  toXml (list string) export root [] st =
    (Returns (XmlElement "Criteria" [("Version", "1")]
                [newChild "Header";
                 XmlElement "SelectionCriterion" [("Name", "a")] [];
                 XmlElement "SelectionCriterion" [("Name", "b")] [];
                 XmlElement "SelectionCriterion" [("Name", "c")] [];
                 XmlElement "SelectionCriterion" [("Name", "d")] []],
              ["a"; "b"; "c"; "d"]), st) /\
  exists added visited',
    toXml (list string) export root [] st =
      (Returns (XmlElement (xmlType root) (xmlAttributes root)
                  (xmlChildren root ++ added), visited'), st) /\
    length added = size (mCriteria st) /\
    StronglySorted key_lt (iteration (mCriteria st)) /\
    Forall2 (fun criterion child =>
               exists c visited,
                 store st !! criterion.2 = Some c /\
                 child = (export c (newChild "SelectionCriterion") visited).1)
      (iteration (mCriteria st)) added.
Proof.
  split; [by vm_compute |].
  apply toXml_one_child_per_criterion.
  refine (bool_decide_unpack _ _). vm_compute. exact I.
Defined.

End CriteriaLaws.
